(** * gollum: configuration parsing, the Syslogd consumer and the Profiler consumer

    A shallow embedding of
      - [shared.Config.SetYAML] and the [PluginConfig] / [Config] structs,
      - [consumer.Syslogd] ([Configure], [Handle], [Consume]),
      - [consumer.Profiler] ([Create], [profile], [Consume]),
    together with the properties the specification states about them.

    Go features and how they are written here:
      - [interface{}] values coming out of the YAML decoder are a tagged
        union ([value]);
      - a run-time panic (failed type assertion, write to a nil map, nil
        dereference, negative [make] length) is the [Abort] outcome of the
        [result] monad;
      - [map[string]T] is a [gmap string T]; a [map[interface{}]interface{}]
        that the code only ranges over is the list of its entries, in the
        order the [range] statement visits them;
      - [uint64] is a [Z] reduced modulo [2^64]. *)

From Stdlib Require Import ZArith String Ascii List Lia.
From stdpp Require Import base tactics option list gmap strings pretty fin_maps.

#[local] Set Warnings "-register-all".
Local Open Scope Z_scope.

(** ** Outcomes of a call *)

Inductive result (A : Type) : Type :=
| Ok (a : A)
| Abort (why : string).
Arguments Ok {A} a.
Arguments Abort {A} why.

#[global] Instance result_ret : MRet result := λ A a, Ok a.
#[global] Instance result_bind : MBind result :=
  λ A B f m, match m with Ok a => f a | Abort w => Abort w end.

(** ** Dynamically typed values *)

(** What the YAML decoder hands to [SetYAML], and what the syslog parser puts
    into [format.LogParts]: nil, scalars, sequences and maps with arbitrary
    keys.  A float is kept as the 64 bits of its IEEE-754 encoding. *)
Inductive value : Type :=
| VNil
| VBool (b : bool)
| VInt (n : Z)
| VFloat (bits : Z)
| VString (s : string)
| VList (items : list value)
| VMap (entries : list (value * value)).

(** Type assertions [v.(T)]: a failed assertion panics. *)
Definition as_list (v : value) : result (list value) :=
  match v with VList l => Ok l | _ => Abort "interface conversion: not []interface {}" end.

Definition as_map (v : value) : result (list (value * value)) :=
  match v with
  | VMap es => Ok es
  | _ => Abort "interface conversion: not map[interface {}]interface {}"
  end.

Definition as_string (v : value) : result string :=
  match v with VString s => Ok s | _ => Abort "interface conversion: not string" end.

Definition as_bool (v : value) : result bool :=
  match v with VBool b => Ok b | _ => Abort "interface conversion: not bool" end.

(** The two-result form [s, ok := v.(string)] on a map lookup: a missing key
    yields the nil interface, for which the assertion fails without panic. *)
Definition string_of_entry (o : option value) : string * bool :=
  match o with
  | Some (VString s) => (s, true)
  | _ => ("", false)
  end.

(** ** Effects

    Calls into collaborators that are not part of these sources (the
    logger, the consumer base class, the syslog server, the typed getters'
    bookkeeping) are recorded as a trace of events, in program order. *)

Inductive Format : Type := NoFormat | RFC3164 | RFC5424 | RFC6587.

Inductive server_call : Type :=
| NewServer
| SetFormat (f : Format)
| SetHandler
| ListenUnixgram (addr : string)
| ListenUDP (addr : string)
| ListenTCP (addr : string)
| Boot
| Kill
| Wait.

Inductive event : Type :=
| Touch (key : string)                         (* a getter recorded the key *)
| LogPrint (logger : string) (text : string)   (* Log.<logger>.Print(text) *)
| Enqueue (payload : list Byte.byte) (sequence : Z)
| PostMessage (msg : string)
| Server (call : server_call).

(** An effectful call: the events it produced and how it ended. *)
Inductive run (A : Type) : Type :=
| Run (trace : list event) (r : result A).
Arguments Run {A} trace r.

Definition trace_of {A} (m : run A) : list event := let 'Run t _ := m in t.
Definition result_of {A} (m : run A) : result A := let 'Run _ r := m in r.

#[global] Instance run_ret : MRet run := λ A a, Run [] (Ok a).
#[global] Instance run_bind : MBind run :=
  λ A B f m,
    match m with
    | Run t (Ok a) => let 'Run t' r := f a in Run (t ++ t') r
    | Run t (Abort w) => Run t (Abort w)
    end.

Definition emit (e : event) : run unit := Run [e] (Ok tt).
Definition lift {A} (r : result A) : run A := Run [] r.

(** ** shared.PluginConfig and shared.Config *)

Record PluginConfig : Type := mkPluginConfig {
  Enable : bool;
  Settings : gmap string value
}.

(** [Config.Settings] is a Go map held by reference: [None] is the nil map
    of a zero [Config], [Some m] an allocated one. *)
Record Config : Type := mkConfig {
  Config_Settings : option (gmap string (list PluginConfig))
}.

(** [conf.Settings[class]] read with the comma-ok form, then the [append]. *)
Definition plugins_of (m : gmap string (list PluginConfig)) (class : string)
  : list PluginConfig :=
  default [] (m !! class).

Module Import SetYAML_loops.

(** Lines 43-54: the loop over the key/value pairs of one settings map. *)
Fixpoint readSettings (pluginSettingsMap : list (value * value)) (plugin : PluginConfig)
  : result PluginConfig :=
  match pluginSettingsMap with
  | [] => Ok plugin
  | (settingKey, settingValue) :: rest =>
      key ← as_string settingKey;
      plugin' ← (if decide (key = "Enable")
                 then b ← as_bool settingValue;
                      Ok (mkPluginConfig b (Settings plugin))
                 else Ok (mkPluginConfig (Enable plugin)
                                         (<[key := settingValue]> (Settings plugin))));
      readSettings rest plugin'
  end.

(** Lines 58-63: append the plugin to the list of its class.  Reading a nil
    map finds nothing; writing to it panics. *)
Definition addPlugin (class : string) (plugin : PluginConfig) (conf : Config)
  : result Config :=
  match Config_Settings conf with
  | None => Abort "assignment to entry in nil map"
  | Some m => Ok (mkConfig (Some (<[class := plugins_of m class ++ [plugin]]> m)))
  end.

(** Lines 34-64: the loop over the entries of one declaration. *)
Fixpoint readClasses (pluginDataMap : list (value * value)) (conf : Config)
  : result Config :=
  match pluginDataMap with
  | [] => Ok conf
  | (pluginClass, pluginSettings) :: rest =>
      pluginSettingsMap ← as_map pluginSettings;
      plugin ← readSettings pluginSettingsMap (mkPluginConfig false ∅);
      class ← as_string pluginClass;
      conf' ← addPlugin class plugin conf;
      readClasses rest conf'
  end.

(** Lines 28-65: the loop over the declarations. *)
Fixpoint readPlugins (pluginList : list value) (conf : Config) : result Config :=
  match pluginList with
  | [] => Ok conf
  | pluginData :: rest =>
      pluginDataMap ← as_map pluginData;
      conf' ← readClasses pluginDataMap conf;
      readPlugins rest conf'
  end.

End SetYAML_loops.

(** [func (conf Config) SetYAML(tagType string, values interface{}) bool].
    The receiver is a copy, but its map is shared with the caller: the
    updated map is returned next to the boolean. *)
Definition SetYAML (conf : Config) (tagType : string) (values : value)
  : result (Config * bool) :=
  pluginList ← as_list values;
  conf' ← readPlugins pluginList conf;
  Ok (conf', true).

(** The map [ReadConfig] allocates before it calls the decoder. *)
Definition emptyConfig : Config := mkConfig (Some ∅).

(** One declaration as the decoder delivers it: [{class: {key: value, ...}}]. *)
Definition declaration (d : string * list (value * value)) : value :=
  VMap [(VString d.1, VMap d.2)].

(** *** What a declaration denotes

    The reading of a settings map that the specification gives: [Enable] is
    the declared boolean, every other entry is kept as it is. *)
Definition has_key (k : string) (kv : value * value) : bool :=
  match kv.1 with
  | VString s => bool_decide (s = k)
  | _ => false
  end.

Definition declared_enable (settings : list (value * value)) : bool :=
  match find (has_key "Enable") settings with
  | Some (_, VBool b) => b
  | _ => false
  end.

Definition string_entry (kv : value * value) : option (string * value) :=
  match kv.1 with
  | VString k => if decide (k = "Enable") then None else Some (k, kv.2)
  | _ => None
  end.

Definition declared_settings (settings : list (value * value)) : gmap string value :=
  list_to_map (omap string_entry settings).

Definition declared_plugin (settings : list (value * value)) : PluginConfig :=
  mkPluginConfig (declared_enable settings) (declared_settings settings).

(** The list of a class after one more declaration of that class. *)
Definition appendDeclared (m : gmap string (list PluginConfig))
    (d : string * list (value * value)) : gmap string (list PluginConfig) :=
  <[d.1 := plugins_of m d.1 ++ [declared_plugin d.2]]> m.

(** [conf'] holds, for every class, the plugins of [conf] followed by more. *)
Definition extends (conf conf' : Config) : Prop :=
  ∀ m, Config_Settings conf = Some m →
       ∃ m', Config_Settings conf' = Some m' ∧
             ∀ class, plugins_of m class `prefix_of` plugins_of m' class.

(** A settings map the decoder can deliver and [SetYAML] accepts: string
    keys, no key twice (it is a Go map), a boolean under [Enable]. *)
Definition key_ok (kv : value * value) : Prop :=
  match kv with
  | (VString k, v) => k = "Enable" → ∃ b, v = VBool b
  | _ => False
  end.

Definition settings_ok (settings : list (value * value)) : Prop :=
  Forall key_ok settings ∧ NoDup settings.*1.

(** ** Typed getters of the plugin config *)

(** Modelled from the spec: the typed getters [GetString], [GetInt] and
    [GetBool] of the plugin config are called by the consumers but are not
    among the sources.  Section 4.2: "Typed getters return the caller's
    default if a key is absent; they record each key they touch."  Section 7
    lists an invalid option type as a fatal configuration error: a declared
    value of another type ends the call. *)
Definition GetString (conf : PluginConfig) (key : string) (defaultValue : string)
  : run string :=
  emit (Touch key);;
  match Settings conf !! key with
  | None => mret defaultValue
  | Some (VString s) => mret s
  | Some _ => lift (Abort "invalid option type")
  end.

Definition GetInt (conf : PluginConfig) (key : string) (defaultValue : Z) : run Z :=
  emit (Touch key);;
  match Settings conf !! key with
  | None => mret defaultValue
  | Some (VInt n) => mret n
  | Some _ => lift (Abort "invalid option type")
  end.

Definition GetBool (conf : PluginConfig) (key : string) (defaultValue : bool)
  : run bool :=
  emit (Touch key);;
  match Settings conf !! key with
  | None => mret defaultValue
  | Some (VBool b) => mret b
  | Some _ => lift (Abort "invalid option type")
  end.

(** ** consumer.Syslogd *)

Definition uint64_modulus : Z := 2 ^ 64.

(** [sequence *uint64]: [None] is the nil pointer of an unconfigured
    consumer.  Of the embedded [core.ConsumerBase] only the two fuse
    callbacks are represented. *)
Record Syslogd : Type := mkSyslogd {
  onFuseBurned : run unit;
  onFuseActive : run unit;
  format : Format;
  protocol : string;
  address : string;
  sequence : option Z
}.

Definition Syslogd_zero : Syslogd :=
  mkSyslogd (mret tt) (mret tt) NoFormat "" "" None.

Definition set_protocol (cons : Syslogd) (p : string) : Syslogd :=
  mkSyslogd (onFuseBurned cons) (onFuseActive cons) (format cons) p (address cons)
            (sequence cons).
Definition set_address (cons : Syslogd) (a : string) : Syslogd :=
  mkSyslogd (onFuseBurned cons) (onFuseActive cons) (format cons) (protocol cons) a
            (sequence cons).
Definition set_format (cons : Syslogd) (f : Format) : Syslogd :=
  mkSyslogd (onFuseBurned cons) (onFuseActive cons) f (protocol cons) (address cons)
            (sequence cons).
Definition set_sequence (cons : Syslogd) (s : option Z) : Syslogd :=
  mkSyslogd (onFuseBurned cons) (onFuseActive cons) (format cons) (protocol cons)
            (address cons) s.
Definition SetFuseBurnedCallback (cons : Syslogd) (f : run unit) : Syslogd :=
  mkSyslogd f (onFuseActive cons) (format cons) (protocol cons) (address cons)
            (sequence cons).
Definition SetFuseActiveCallback (cons : Syslogd) (f : run unit) : Syslogd :=
  mkSyslogd (onFuseBurned cons) f (format cons) (protocol cons) (address cons)
            (sequence cons).

(** [switch cons.protocol { case "udp", "tcp", "unix": ... }] *)
Definition known_protocol (p : string) : bool :=
  bool_decide (p ∈ ["udp"; "tcp"; "unix"]).

Section Syslogd.

(** [core.ConsumerBase.Configure] and [shared.ParseAddress] are not among
    the sources: the error the former returns and the (address, protocol)
    pair the latter returns are taken as given. *)
Variable ConsumerBase_Configure : PluginConfig → option string.
Variable ParseAddress : string → string * string.

(** Lines 77-100: the switch on the format name, with the coercion of tcp
    to udp for the two datagram-only standards. *)
Definition selectFormat (cons : Syslogd) (formatName : string)
  : run (Syslogd * option string) :=
  if decide (formatName = "RFC3164") then
    let cons := set_format cons RFC3164 in
    if decide (protocol cons = "tcp") then
      emit (LogPrint "Warning" "Syslog: RFC3164 demands UDP");;
      mret (set_protocol cons "udp", None)
    else mret (cons, None)
  else if decide (formatName = "RFC5424") then
    let cons := set_format cons RFC5424 in
    if decide (protocol cons = "tcp") then
      emit (LogPrint "Warning" "Syslog: RFC5424 demands UDP");;
      mret (set_protocol cons "udp", None)
    else mret (cons, None)
  else if decide (formatName = "RFC6587") then
    mret (set_format cons RFC6587, None)
  else
    mret (cons, Some ("Syslog: Format " +:+ formatName +:+ " is not supported")).

(** [func (cons *Syslogd) Configure(conf core.PluginConfig) error]: the
    consumer after the call and the returned error ([None] is nil). *)
Definition Configure (cons : Syslogd) (conf : PluginConfig)
  : run (Syslogd * option string) :=
  match ConsumerBase_Configure conf with
  | Some err => mret (cons, Some err)
  | None =>
      addressString ← GetString conf "Address" "udp://0.0.0.0:514";
      let cons := set_protocol (set_address cons (ParseAddress addressString).1)
                               (ParseAddress addressString).2 in
      formatName ← GetString conf "Format" "RFC6587";
      if known_protocol (protocol cons) then
        '(cons, err) ← selectFormat cons formatName;
        mret (set_sequence cons (Some 0), err)
      else
        mret (cons, Some ("Syslog: unknown protocol type " +:+ protocol cons))
  end.

End Syslogd.

(** *** The options [Configure] reads *)

(** A string option as declared, or its default. *)
Definition declared_string (conf : PluginConfig) (key defaultValue : string) : string :=
  match Settings conf !! key with
  | Some (VString s) => s
  | _ => defaultValue
  end.

(** The option is absent or declared with a string. *)
Definition string_typed (conf : PluginConfig) (key : string) : Prop :=
  match Settings conf !! key with
  | None | Some (VString _) => True
  | Some _ => False
  end.

#[global] Instance string_typed_dec conf key : Decision (string_typed conf key).
Proof. unfold string_typed. destruct (Settings conf !! key) as [[]|]; apply _. Defined.

Definition configured_address (conf : PluginConfig) : string :=
  declared_string conf "Address" "udp://0.0.0.0:514".

Definition configured_format (conf : PluginConfig) : string :=
  declared_string conf "Format" "RFC6587".

(** An address parser to run [Configure] on concrete inputs:
    [protocol://address], and tcp when no protocol is given. *)
Fixpoint splitScheme (s : string) : option (string * string) :=
  match s with
  | EmptyString => None
  | String c rest =>
      if String.prefix "://" s then Some (EmptyString, String.substring 3 (String.length s - 3) s)
      else match splitScheme rest with
           | Some (scheme, addr) => Some (String c scheme, addr)
           | None => None
           end
  end.

Definition exampleParseAddress (addressString : string) : string * string :=
  match splitScheme addressString with
  | Some (scheme, addr) => (addr, scheme)
  | None => (addressString, "tcp")
  end.

(** [[]byte(content)] *)
Definition bytes_of (s : string) : list Byte.byte := list_byte_of_string s.

(** [func (cons *Syslogd) Handle(parts format.LogParts, code int64, err error)] *)
Definition Handle (cons : Syslogd) (parts : gmap string value) (code : Z)
    (err : option string) : run Syslogd :=
  '(content, isString) ←
     match format cons with
     | RFC3164 => mret (string_of_entry (parts !! "content"))
     | RFC5424 | RFC6587 => mret (string_of_entry (parts !! "message"))
     | NoFormat =>
         emit (LogPrint "Error" "Could not determine the format to retrieve message/content");;
         mret ("", false)
     end;
  if negb isString then
    emit (LogPrint "Error" "Message/Content is not a string");;
    mret cons
  else
    match sequence cons with
    | None => lift (Abort "nil pointer dereference")
    | Some n =>
        emit (Enqueue (bytes_of content) n);;
        mret (set_sequence cons (Some ((n + 1) mod uint64_modulus)))
    end.

(** The server delivering one parsed message after the other to the same
    handler. *)
Fixpoint HandleAll (cons : Syslogd) (calls : list (gmap string value * Z * option string))
  : run Syslogd :=
  match calls with
  | [] => mret cons
  | (parts, code, err) :: rest =>
      cons' ← Handle cons parts code err;
      HandleAll cons' rest
  end.

(** The sequence numbers handed to [Enqueue], in call order. *)
Definition enqueued (t : list event) : list Z :=
  omap (λ e, match e with Enqueue _ n => Some n | _ => None end) t.

(** The field [Handle] reads for a format. *)
Definition expected_field (f : Format) : option string :=
  match f with
  | RFC3164 => Some "content"
  | RFC5424 | RFC6587 => Some "message"
  | NoFormat => None
  end.

(** A configured RFC3164 consumer and three deliveries, the second without
    the [content] field. *)
Definition exampleConsumer : Syslogd :=
  set_sequence (set_format Syslogd_zero RFC3164) (Some 0).

Definition exampleCalls : list (gmap string value * Z * option string) :=
  [({[ "content" := VString "a" ]}, 0, None);
   (∅, 0, None);
   ({[ "content" := VString "b" ]}, 0, None)].

(** A call whose parts hold a string under the field [Handle] reads. *)
Definition accepted (f : Format) (call : gmap string value * Z * option string) : Prop :=
  ∃ field s, expected_field f = Some field ∧ call.1.1 !! field = Some (VString s).

(** Each number is below the ones enqueued after it. *)
Definition strictly_increasing (l : list Z) : Prop :=
  ∀ i j a b, (i < j)%nat → l !! i = Some a → l !! j = Some b → a < b.

(** *** The control loop and Consume *)

Inductive signal : Type := StopGraceful | StopImmediate | Roll | FuseBurn | FuseActive.

(** How a loop on a control channel stands once the signals sent so far
    have been read: it has returned on reading the [received]-th signal, or
    it is blocked on the empty channel. *)
Inductive ending : Type :=
| Returned (received : nat)
| Waiting.

(** Modelled from the spec: [ConsumerBase.ControlLoop] is not among the
    sources.  Section 4.5: it "blocks on the control channel, dispatches
    each signal to user-overridable handlers, and returns when a stop is
    received"; the handlers of the two fuse signals are the callbacks set
    with [SetFuseBurnedCallback] and [SetFuseActiveCallback] (section 4.7). *)
Fixpoint ControlLoop (cons : Syslogd) (control : list signal) (received : nat)
  : run ending :=
  match control with
  | [] => mret Waiting
  | StopGraceful :: _ | StopImmediate :: _ => mret (Returned (S received))
  | Roll :: rest => ControlLoop cons rest (S received)
  | FuseBurn :: rest => onFuseBurned cons;; ControlLoop cons rest (S received)
  | FuseActive :: rest => onFuseActive cons;; ControlLoop cons rest (S received)
  end.

(** Lines 136-149.  Whether the operating system lets the server bind is
    the input [bound]; a failure is logged and [Consume] goes on. *)
Definition listen (cons : Syslogd) (bound : bool) : run unit :=
  if decide (protocol cons = "unix") then
    emit (Server (ListenUnixgram (address cons)));;
    if bound then mret tt
    else emit (LogPrint "Error" ("Syslog: Failed to open unix://" +:+ address cons))
  else if decide (protocol cons = "udp") then
    emit (Server (ListenUDP (address cons)));;
    if bound then mret tt
    else emit (LogPrint "Error" ("Syslog: Failed to open udp://" +:+ address cons))
  else if decide (protocol cons = "tcp") then
    emit (Server (ListenTCP (address cons)));;
    if bound then mret tt
    else emit (LogPrint "Error" ("Syslog: Failed to open tcp://" +:+ address cons))
  else mret tt.

(** The closures handed to the two setters: each calls a method of the
    server created at the top of [Consume]. *)
Definition burnedCallback : run unit := emit (Server Kill).
Definition activeCallback : run unit := emit (Server Boot).

(** Lines 132-155, up to the call of the control loop. *)
Definition Consume_setup (cons : Syslogd) (bound : bool) : run Syslogd :=
  emit (Server NewServer);;
  emit (Server (SetFormat (format cons)));;
  emit (Server SetHandler);;
  listen cons bound;;
  emit (Server Boot);;
  let cons := SetFuseBurnedCallback cons burnedCallback in
  let cons := SetFuseActiveCallback cons activeCallback in
  mret cons.

(** [func (cons *Syslogd) Consume(workers *sync.WaitGroup)].  The deferred
    [server.Kill()] runs when the function returns, after [server.Wait()]. *)
Definition Consume (cons : Syslogd) (bound : bool) (control : list signal)
  : run (Syslogd * ending) :=
  cons ← Consume_setup cons bound;
  e ← ControlLoop cons control 0;
  match e with
  | Returned n =>
      emit (Server Wait);;
      emit (Server Kill);;
      mret (cons, Returned n)
  | Waiting => mret (cons, Waiting)
  end.

(** The calls made on the syslog server, in order. *)
Definition server_calls (t : list event) : list server_call :=
  omap (λ e, match e with Server c => Some c | _ => None end) t.

(** The calls [Consume] makes before it enters the control loop. *)
Definition listen_calls (cons : Syslogd) : list server_call :=
  if decide (protocol cons = "unix") then [ListenUnixgram (address cons)]
  else if decide (protocol cons = "udp") then [ListenUDP (address cons)]
  else if decide (protocol cons = "tcp") then [ListenTCP (address cons)]
  else [].

Definition setup_calls (cons : Syslogd) : list server_call :=
  [NewServer; SetFormat (format cons); SetHandler] ++ listen_calls cons ++ [Boot].

(** The calls made once the control loop has returned. *)
Definition teardown_calls (e : ending) : list server_call :=
  match e with
  | Returned _ => [Wait; Kill]
  | Waiting => []
  end.

(** What the control loop does to the server for one signal. *)
Definition fuse_call (s : signal) : option server_call :=
  match s with
  | FuseBurn => Some Kill
  | FuseActive => Some Boot
  | _ => None
  end.

Definition is_stop (s : signal) : bool :=
  match s with StopGraceful | StopImmediate => true | _ => false end.

(** The signals read before the first stop. *)
Fixpoint before_stop (control : list signal) : list signal :=
  match control with
  | [] => []
  | s :: rest => if is_stop s then [] else s :: before_stop rest
  end.

(** ** consumer.Profiler *)

Module Profiler.

(** A rune is its code point.  [string(runes)] encodes each one in UTF-8,
    an invalid code point as U+FFFD. *)
Definition byte_char (n : Z) : ascii := ascii_of_N (Z.to_N n).

Definition utf8 (r : Z) : list ascii :=
  if (r <? 0) || (0x10FFFF <? r) || ((0xD800 <=? r) && (r <=? 0xDFFF)) then
    [byte_char 0xEF; byte_char 0xBF; byte_char 0xBD]
  else if r <? 0x80 then [byte_char r]
  else if r <? 0x800 then
    [byte_char (Z.lor 0xC0 (Z.shiftr r 6));
     byte_char (Z.lor 0x80 (Z.land r 0x3F))]
  else if r <? 0x10000 then
    [byte_char (Z.lor 0xE0 (Z.shiftr r 12));
     byte_char (Z.lor 0x80 (Z.land (Z.shiftr r 6) 0x3F));
     byte_char (Z.lor 0x80 (Z.land r 0x3F))]
  else
    [byte_char (Z.lor 0xF0 (Z.shiftr r 18));
     byte_char (Z.lor 0x80 (Z.land (Z.shiftr r 12) 0x3F));
     byte_char (Z.lor 0x80 (Z.land (Z.shiftr r 6) 0x3F));
     byte_char (Z.lor 0x80 (Z.land r 0x3F))].

Definition string_of_runes (rs : list Z) : string :=
  string_of_list_ascii (flat_map utf8 rs).

Definition ascii_runes (s : string) : list Z :=
  map (λ a, Z.of_N (N_of_ascii a)) (list_ascii_of_string s).

(** [var stringBase = []rune("abc...$§'")]; the section sign is U+00A7. *)
Definition stringBase : list Z :=
  ascii_runes "abcdefghijklmnopqrstuvwxyzABCDEFGHIJKLMNOPQRSTUVWXYZ01234567890 _.!?/&%$"
  ++ [0xA7] ++ ascii_runes "'".

(** The embedded [standardConsumer] is not represented. *)
Record Profiler : Type := mkProfiler {
  profileRuns : Z;
  batches : Z;
  length : Z
}.

(** [fmt.Sprintf("%d/%d %s", i, cons.profileRuns, string(randString))] *)
Definition message (i runs : Z) (randString : list Z) : string :=
  pretty i +:+ "/" +:+ pretty runs +:+ " " +:+ string_of_runes randString.

(** A [for] loop over the elements of a list. *)
Fixpoint for_each {A} (l : list A) (body : A → run unit) : run unit :=
  match l with
  | [] => mret tt
  | x :: rest => body x;; for_each rest body
  end.

Section Profiler.

(** [shared.ConsumerControlStop], [configureStandardConsumer] and the
    random source behind [rand.Intn] are taken as given: [source k] is the
    number the generator draws at the [k]-th call, which [Intn(n)] brings
    into [[0, n)]. *)
Variable ConsumerControlStop : Z.
Variable configureStandardConsumer : PluginConfig → option string.
Variable source : nat → Z.

Definition Intn (call : nat) (n : Z) : Z := source call mod n.

(** [func (cons Profiler) Create(conf, pool) (shared.Consumer, error)].
    The options are read whatever [configureStandardConsumer] returned. *)
Definition Create (cons : Profiler) (conf : PluginConfig)
  : run (Profiler * option string) :=
  let err := configureStandardConsumer conf in
  runs ← GetInt conf "Runs" 10000;
  batches ← GetInt conf "Batches" 10;
  length ← GetInt conf "Length" 256;
  mret (mkProfiler runs batches length, err).

(** Lines 36-39: [make] panics on a negative length; an index outside
    [stringBase] would panic too. *)
Fixpoint fillRandString (calls : list nat) : result (list Z) :=
  match calls with
  | [] => Ok []
  | i :: rest =>
      match stringBase !! Z.to_nat (Intn i (Z.of_nat (List.length stringBase))) with
      | None => Abort "index out of range"
      | Some r => rs ← fillRandString rest; Ok (r :: rs)
      end
  end.

Definition makeRandString (cons : Profiler) : result (list Z) :=
  if length cons <? 0 then Abort "makeslice: len out of range"
  else fillRandString (seq 0 (Z.to_nat (length cons))).

(** Lines 42-55: one batch posts [profileRuns] messages and logs a note.
    The note's elapsed time comes from the clock and is left out. *)
Definition batch (cons : Profiler) (randString : list Z) (b : Z) : run unit :=
  for_each (seqZ 0 (profileRuns cons))
           (λ i, emit (PostMessage (message i (profileRuns cons) randString)));;
  emit (LogPrint "Note" ("Profile run #" +:+ pretty b)).

(** [func (cons Profiler) profile()] *)
Definition profile (cons : Profiler) : run unit :=
  randString ← lift (makeRandString cons);
  for_each (seqZ 0 (batches cons)) (batch cons randString).

(** Lines 63-68: the loop on the control channel. *)
Fixpoint waitForStop (control : list Z) (received : nat) : ending :=
  match control with
  | [] => Waiting
  | command :: rest =>
      if decide (command = ConsumerControlStop) then Returned (S received)
      else waitForStop rest (S received)
  end.

(** [func (cons Profiler) Consume(threads *sync.WaitGroup)]: the run of
    the goroutine it starts, and how its own loop stands. *)
Definition Consume (cons : Profiler) (control : list Z) : run unit * ending :=
  (profile cons, waitForStop control 0).

End Profiler.

(** The messages handed to [postMessage], in order. *)
Definition posted (t : list event) : list string :=
omap (λ e, match e with PostMessage m => Some m | _ => None end) t.

(** The payloads of one batch and of a whole run. *)
Definition batch_payloads (runs : Z) (randString : list Z) : list string :=
(λ i, message i runs randString) <$> seqZ 0 runs.

Definition run_payloads (batches runs : Z) (randString : list Z) : list string :=
mjoin ((λ _, batch_payloads runs randString) <$> seqZ 0 batches).

End Profiler.

(** ** Further notions the properties below are stated with *)

(** *** Inputs [SetYAML] gets through without a panic *)

(** An entry of a declaration: a string class over a map of settings with
    string keys and a boolean under [Enable]. *)
Definition entry_ok (e : value * value) : Prop :=
  match e with
  | (VString _, VMap settings) => Forall key_ok settings
  | _ => False
  end.

Definition declaration_ok (d : value) : Prop :=
  match d with
  | VMap entries => Forall entry_ok entries
  | _ => False
  end.

(** The classes a list of declarations names, entry by entry. *)
Definition entry_class (e : value * value) : option string :=
  match e.1 with
  | VString class => Some class
  | _ => None
  end.

Definition declared_classes (pluginList : list value) : list string :=
  flat_map (λ d, match d with
                 | VMap entries => omap entry_class entries
                 | _ => []
                 end) pluginList.

(** No plugin of the configuration holds [Enable] among its settings. *)
Definition no_Enable_setting (conf : Config) : Prop :=
  ∀ m class plugin,
    Config_Settings conf = Some m → plugin ∈ plugins_of m class →
    Settings plugin !! "Enable" = None.

(** *** The Syslogd consumer *)

(** A consumer with a format has an allocated counter, within [uint64]. *)
Definition Syslogd_ok (cons : Syslogd) : Prop :=
  format cons ≠ NoFormat →
  ∃ n, sequence cons = Some n ∧ 0 ≤ n < uint64_modulus.

(** The payload [Handle] enqueues for a call, if any. *)
Definition payload_of (f : Format) (call : gmap string value * Z * option string)
  : option (list Byte.byte) :=
  match expected_field f with
  | Some field =>
      match call.1.1 !! field with
      | Some (VString s) => Some (bytes_of s)
      | _ => None
      end
  | None => None
  end.

(** The payloads handed to [Enqueue], and the lines printed to the log. *)
Definition payloads (t : list event) : list (list Byte.byte) :=
  omap (λ e, match e with Enqueue p _ => Some p | _ => None end) t.

Definition logged (t : list event) : list (string * string) :=
  omap (λ e, match e with LogPrint logger text => Some (logger, text) | _ => None end) t.

(** Whether the server is up after a series of calls: [Boot] starts it,
    [Kill] stops it. *)
Definition running (calls : list server_call) : bool :=
  foldl (λ up c, match c with Boot => true | Kill => false | _ => up end) false calls.

(** Whether the fuse stands burned after a series of signals. *)
Definition fuse_burned (control : list signal) : bool :=
  foldl (λ burned s, match s with
                     | FuseBurn => true
                     | FuseActive => false
                     | _ => burned
                     end) false control.

(** *** The Profiler *)

(** An integer option as declared, or its default. *)
Definition declared_int (conf : PluginConfig) (key : string) (defaultValue : Z) : Z :=
  match Settings conf !! key with
  | Some (VInt n) => n
  | _ => defaultValue
  end.

Definition int_typed (conf : PluginConfig) (key : string) : Prop :=
  match Settings conf !! key with
  | None | Some (VInt _) => True
  | Some _ => False
  end.

(** The one rune of [stringBase] outside ASCII, U+00A7. *)
Definition sectionSign : Z := 0xA7.

(** The events of batch [b]: its messages, then its note. *)
Definition batch_events (runs : Z) (randString : list Z) (b : Z) : list event :=
  (PostMessage <$> Profiler.batch_payloads runs randString) ++
  [LogPrint "Note" ("Profile run #" +:+ pretty b)].

(** * Properties *)

(** ** The two monads *)

Lemma run_bind_ok {A B} (m : run A) (f : A → run B) t a :
m = Run t (Ok a) →
m ≫= f = Run (t ++ trace_of (f a)) (result_of (f a)).
Proof. intros ->. simpl. by destruct (f a). Qed.

Lemma run_eta {A} (m : run A) : m = Run (trace_of m) (result_of m).
Proof. by destruct m. Qed.

Lemma trace_bind_emit {A} e (k : run A) :
trace_of (emit e;; k) = e :: trace_of k.
Proof. simpl. by destruct k. Qed.

Lemma result_bind_emit {A} e (k : run A) :
result_of (emit e;; k) = result_of k.
Proof. simpl. by destruct k. Qed.

(** ** Config.SetYAML *)

Example SetYAML_two :
SetYAML emptyConfig "config"
  (VList [declaration ("consumer.Console",
                       [(VString "Enable", VBool true); (VString "Stream", VString "s")]);
          declaration ("consumer.Console", [(VString "Stream", VString "t")])]) =
Ok (mkConfig (Some {[ "consumer.Console" :=
        [ mkPluginConfig true {[ "Stream" := VString "s" ]};
          mkPluginConfig false {[ "Stream" := VString "t" ]} ] ]}), true).
Proof. vm_compute. reflexivity. Qed.

Section SetYAML_facts.

Implicit Types (settings : list (value * value)) (plugin : PluginConfig).
Implicit Types (m : gmap string (list PluginConfig)) (conf : Config).

(** Without an [Enable] entry the loop never assigns the field. *)
Lemma readSettings_keeps_Enable settings plugin plugin' :
  readSettings settings plugin = Ok plugin' →
  VString "Enable" ∉ settings.*1 →
  Enable plugin' = Enable plugin.
Proof.
  revert plugin. induction settings as [|[k v] rest IH]; intros plugin Hrun Hno.
  - by inversion Hrun.
  - simpl in Hrun, Hno. apply not_elem_of_cons in Hno as [Hk Hrest].
    destruct k as [| | | |key| |]; simpl in Hrun; try discriminate.
    destruct (decide (key = "Enable")) as [->|Hne]; [done|].
    simpl in Hrun. by rewrite (IH _ Hrun Hrest).
Qed.

Lemma has_key_find_None k settings :
  VString k ∉ settings.*1 → find (has_key k) settings = None.
Proof.
  induction settings as [|[k' v] rest IH]; [done|]. simpl.
  intros [Hk Hrest]%not_elem_of_cons. unfold has_key at 1. simpl.
  destruct k' as [| | | |s| |]; auto.
  rewrite bool_decide_eq_false_2; [auto | congruence].
Qed.

Lemma declared_settings_fresh k settings :
  VString k ∉ settings.*1 → declared_settings settings !! k = None.
Proof.
  unfold declared_settings. intros Hk. apply not_elem_of_list_to_map_1.
  intros ([k' v] & -> & Hin)%list_elem_of_fmap. simpl in Hk.
  apply list_elem_of_omap in Hin as ([key w] & Hin & Hentry).
  unfold string_entry in Hentry. simpl in Hentry.
  destruct key as [| | | |s| |]; try discriminate.
  destruct (decide (s = "Enable")); [discriminate|].
  injection Hentry as <- <-. apply Hk.
  apply list_elem_of_fmap. eexists. split; [|exact Hin]. done.
Qed.

(** On an accepted settings map the loop computes the declared plugin,
    on top of whatever the plugin held before. *)
Lemma readSettings_declared settings plugin :
  settings_ok settings →
  readSettings settings plugin =
  Ok (mkPluginConfig
        (match find (has_key "Enable") settings with
         | Some (_, VBool b) => b
         | _ => Enable plugin
         end)
        (declared_settings settings ∪ Settings plugin)).
Proof.
  intros [Hkeys Hnodup]. revert plugin.
  induction settings as [|[k v] rest IH]; intros plugin.
  - simpl. unfold declared_settings. simpl. rewrite (left_id_L ∅ (∪)).
    by destruct plugin.
  - apply Forall_cons in Hkeys as [Hk Hkeys].
    simpl in Hnodup. apply NoDup_cons in Hnodup as [Hfresh Hnodup].
    destruct k as [| | | |key| |]; try done. simpl in Hk. simpl.
    destruct (decide (key = "Enable")) as [->|Hne].
    + destruct (Hk eq_refl) as [b ->]. simpl.
      rewrite (IH Hkeys Hnodup). simpl.
      rewrite (has_key_find_None _ _ Hfresh).
      by unfold declared_settings.
    + simpl. rewrite (IH Hkeys Hnodup). simpl.
      unfold has_key at 2. simpl. rewrite bool_decide_eq_false_2 by done.
      f_equal. f_equal.
      unfold declared_settings at 2. simpl. unfold string_entry at 1. simpl.
      destruct (decide (key = "Enable")); [done|]. simpl.
      fold (declared_settings rest).
      rewrite <- insert_union_l. symmetry. apply insert_union_r.
      by apply declared_settings_fresh.
Qed.

Lemma readSettings_fresh settings :
  settings_ok settings →
  readSettings settings (mkPluginConfig false ∅) = Ok (declared_plugin settings).
Proof.
  intros Hok. rewrite (readSettings_declared _ _ Hok). simpl.
  by rewrite (right_id_L ∅ (∪)).
Qed.

(** What the declared settings hold. *)
Lemma declared_settings_lookup settings k v :
  NoDup settings.*1 → k ≠ "Enable" →
  declared_settings settings !! k = Some v ↔ (VString k, v) ∈ settings.
Proof.
  intros Hnodup Hk. unfold declared_settings.
  assert (NoDup (omap string_entry settings).*1) as Hnd.
  { clear Hk. induction settings as [|[key w] rest IH]; [constructor|].
    simpl in Hnodup. apply NoDup_cons in Hnodup as [Hfresh Hnodup].
    simpl. unfold string_entry at 1. simpl.
    destruct key as [| | | |s| |]; auto.
    destruct (decide (s = "Enable")); auto. simpl.
    apply NoDup_cons. split; [|auto].
    intros ([s' w'] & Heq & Hin)%list_elem_of_fmap. simpl in Heq. subst s'.
    apply list_elem_of_omap in Hin as ([key' w''] & Hin & Hentry).
    unfold string_entry in Hentry. simpl in Hentry.
    destruct key' as [| | | |s'| |]; try discriminate.
    destruct (decide (s' = "Enable")); [discriminate|].
    injection Hentry as <- <-. apply Hfresh.
    apply list_elem_of_fmap. eexists. split; [|exact Hin]. done. }
  rewrite <- (elem_of_list_to_map _ _ _ Hnd). rewrite list_elem_of_omap. split.
  - intros ([key w] & Hin & Hentry). unfold string_entry in Hentry. simpl in Hentry.
    destruct key as [| | | |s| |]; try discriminate.
    destruct (decide (s = "Enable")); [discriminate|]. by injection Hentry as -> ->.
  - intros Hin. exists (VString k, v). split; [done|].
    unfold string_entry. simpl. by destruct (decide (k = "Enable")).
Qed.

End SetYAML_facts.

Lemma result_bind_Ok {A B} (m : result A) (f : A → result B) b :
m ≫= f = Ok b → ∃ a, m = Ok a ∧ f a = Ok b.
Proof. destruct m as [a|w]; [by exists a | done]. Qed.

Section SetYAML_loops_facts.

Implicit Types (m : gmap string (list PluginConfig)) (conf : Config).

Lemma extends_refl conf : extends conf conf.
Proof. intros m Hm. by exists m. Qed.

Lemma extends_trans conf1 conf2 conf3 :
  extends conf1 conf2 → extends conf2 conf3 → extends conf1 conf3.
Proof.
  intros H12 H23 m1 Hm1. destruct (H12 _ Hm1) as (m2 & Hm2 & Hp12).
  destruct (H23 _ Hm2) as (m3 & Hm3 & Hp23). exists m3. split; [done|].
  intros class. by transitivity (plugins_of m2 class).
Qed.

Lemma plugins_of_insert m class ps class' :
  plugins_of (<[class := ps]> m) class' =
  if decide (class = class') then ps else plugins_of m class'.
Proof.
  unfold plugins_of. rewrite lookup_insert. by destruct (decide (class = class')).
Qed.

Lemma addPlugin_Ok class plugin conf conf' :
  addPlugin class plugin conf = Ok conf' →
  ∃ m, Config_Settings conf = Some m ∧
       conf' = mkConfig (Some (<[class := plugins_of m class ++ [plugin]]> m)).
Proof.
  unfold addPlugin. destruct (Config_Settings conf) as [m|]; [|done].
  intros [= <-]. by exists m.
Qed.

Lemma addPlugin_extends class plugin conf conf' :
  addPlugin class plugin conf = Ok conf' → extends conf conf'.
Proof.
  intros (m & Hm & ->)%addPlugin_Ok m' Hm'. rewrite Hm in Hm'. injection Hm' as <-.
  eexists. split; [done|]. intros class'. rewrite plugins_of_insert.
  destruct (decide (class = class')) as [<-|]; [by apply prefix_app_r | done].
Qed.

Lemma readClasses_extends entries conf conf' :
  readClasses entries conf = Ok conf' → extends conf conf'.
Proof.
  revert conf. induction entries as [|[k v] rest IH]; intros conf Hrun.
  - injection Hrun as <-. apply extends_refl.
  - simpl in Hrun.
    apply result_bind_Ok in Hrun as (settings & _ & Hrun).
    apply result_bind_Ok in Hrun as (plugin & _ & Hrun).
    apply result_bind_Ok in Hrun as (class & _ & Hrun).
    apply result_bind_Ok in Hrun as (conf1 & Hadd & Hrun).
    eapply extends_trans; [by eapply addPlugin_extends | by apply IH].
Qed.

Lemma readPlugins_extends pluginList conf conf' :
  readPlugins pluginList conf = Ok conf' → extends conf conf'.
Proof.
  revert conf. induction pluginList as [|d rest IH]; intros conf Hrun.
  - injection Hrun as <-. apply extends_refl.
  - simpl in Hrun.
    apply result_bind_Ok in Hrun as (entries & _ & Hrun).
    apply result_bind_Ok in Hrun as (conf1 & Hcls & Hrun).
    eapply extends_trans; [by eapply readClasses_extends | by apply IH].
Qed.

Lemma readPlugins_app l1 l2 conf :
  readPlugins (l1 ++ l2) conf = readPlugins l1 conf ≫= readPlugins l2.
Proof.
  revert conf. induction l1 as [|d rest IH]; intros conf; [done|]. simpl.
  destruct (as_map d) as [entries|]; [|done]. simpl.
  destruct (readClasses entries conf) as [conf1|]; [|done]. simpl. apply IH.
Qed.

Lemma readPlugins_declared m (ds : list (string * list (value * value))) :
  Forall (λ d, settings_ok d.2) ds →
  readPlugins (declaration <$> ds) (mkConfig (Some m)) =
  Ok (mkConfig (Some (foldl appendDeclared m ds))).
Proof.
  intros Hok. revert m. induction Hok as [|[class settings] ds Hd Hds IH]; intros m.
  - done.
  - simpl in Hd. simpl. rewrite (readSettings_fresh _ Hd). simpl. apply IH.
Qed.

Lemma plugins_of_foldl m (ds : list (string * list (value * value))) class :
  plugins_of (foldl appendDeclared m ds) class =
  plugins_of m class ++ (declared_plugin ∘ snd <$> filter (λ d, d.1 = class) ds).
Proof.
  revert m. induction ds as [|d ds IH]; intros m.
  - simpl. by rewrite app_nil_r.
  - simpl. rewrite IH. unfold appendDeclared at 1. rewrite plugins_of_insert.
    rewrite filter_cons. destruct (decide (d.1 = class)) as [<-|Hne].
    + simpl. by rewrite <- app_assoc.
    + done.
Qed.

End SetYAML_loops_facts.

(** C1, as the code has it: a plugin declaration without an [Enable] key
  yields a [PluginConfig] whose [Enable] is false, the value the struct is
  created with.  The plugin of the declaration is the one appended to the
  list of its class, right behind those the earlier declarations left. *)
Theorem SetYAML_without_Enable_is_disabled
  (conf conf' : Config) (tagType : string) (pre post : list value)
  (class : string) (settings : list (value * value)) (b : bool) :
SetYAML conf tagType (VList (pre ++ declaration (class, settings) :: post)) = Ok (conf', b) →
VString "Enable" ∉ settings.*1 →
∃ before after plugin,
  SetYAML conf tagType (VList pre) = Ok (mkConfig (Some before), true) ∧
  Config_Settings conf' = Some after ∧
  plugins_of after class !! List.length (plugins_of before class) = Some plugin ∧
  Enable plugin = false.
Proof.
unfold SetYAML. simpl. intros Hrun Hno.
apply result_bind_Ok in Hrun as (conf3 & Hrun & Hret).
injection Hret as -> <-.
rewrite readPlugins_app in Hrun.
apply result_bind_Ok in Hrun as (conf1 & Hpre & Hrun).
simpl in Hrun.
apply result_bind_Ok in Hrun as (conf2 & Hdecl & Hpost).
apply result_bind_Ok in Hdecl as (plugin & Hread & Hdecl).
simpl in Hdecl.
apply result_bind_Ok in Hdecl as (conf2' & Hadd & Hdecl).
injection Hdecl as ->.
apply addPlugin_Ok in Hadd as (before & Hbefore & ->).
apply readPlugins_extends in Hpost.
destruct (Hpost _ eq_refl) as (after & Hafter & Hprefix).
exists before, after, plugin. repeat split.
- rewrite Hpre. simpl. destruct conf1 as [c]. simpl in Hbefore. by subst c.
- exact Hafter.
- destruct (Hprefix class) as [more Hmore]. rewrite Hmore.
  rewrite plugins_of_insert. destruct (decide (class = class)); [|done].
  rewrite <- app_assoc. by rewrite lookup_app_r, Nat.sub_diag.
- apply (readSettings_keeps_Enable _ _ _ Hread Hno).
Qed.

Lemma SetYAML_without_Enable_is_disabled_witness :
∃ before after plugin,
  SetYAML emptyConfig "config" (VList []) = Ok (mkConfig (Some before), true) ∧
  Config_Settings
    (mkConfig (Some {[ "consumer.Console" :=
                         [mkPluginConfig false {[ "Stream" := VString "s" ]}] ]}))
    = Some after ∧
  plugins_of after "consumer.Console"
    !! List.length (plugins_of before "consumer.Console") = Some plugin ∧
  Enable plugin = false.
Proof.
apply (SetYAML_without_Enable_is_disabled emptyConfig _ "config" [] []
         "consumer.Console" [(VString "Stream", VString "s")] true).
- vm_compute. reflexivity.
- simpl. intros Hin. apply list_elem_of_singleton in Hin. discriminate Hin.
Defined.

(** The claim of C1 fails: the declaration [consumer.Console: {Stream: s}]
  has no [Enable] key and its [PluginConfig] has [Enable = false]. *)
Lemma SetYAML_Enable_default_not_true :
∃ plugin,
  SetYAML emptyConfig "config"
    (VList [declaration ("consumer.Console", [(VString "Stream", VString "s")])]) =
  Ok (mkConfig (Some {[ "consumer.Console" := [plugin] ]}), true) ∧
  Enable plugin ≠ true.
Proof.
exists (mkPluginConfig false {[ "Stream" := VString "s" ]}). split.
- vm_compute. reflexivity.
- simpl. discriminate.
Qed.

(** C6: a sequence of declarations, each a single-entry map from a class
  name to a settings map, is turned into one [PluginConfig] per
  declaration, appended to the list of its class in declaration order;
  every settings key but [Enable] is stored with its value, and nothing
  else is. *)
Theorem SetYAML_appends_declared_plugins
  (m : gmap string (list PluginConfig)) (tagType : string)
  (ds : list (string * list (value * value))) :
Forall (λ d, settings_ok d.2) ds →
∃ m',
  SetYAML (mkConfig (Some m)) tagType (VList (declaration <$> ds)) =
    Ok (mkConfig (Some m'), true) ∧
  (∀ class, plugins_of m' class =
            plugins_of m class ++
            (declared_plugin ∘ snd <$> filter (λ d, d.1 = class) ds)) ∧
  (∀ d, d ∈ ds → ∀ k v, k ≠ "Enable" →
        Settings (declared_plugin d.2) !! k = Some v ↔ (VString k, v) ∈ d.2).
Proof.
intros Hok. exists (foldl appendDeclared m ds). split; [|split].
- unfold SetYAML. simpl. by rewrite (readPlugins_declared _ _ Hok).
- intros class. apply plugins_of_foldl.
- intros d Hd k v Hk. rewrite Forall_forall in Hok.
  destruct (Hok d Hd) as [_ Hnodup]. by apply declared_settings_lookup.
Qed.

Lemma SetYAML_appends_declared_plugins_witness :
∃ m',
  SetYAML (mkConfig (Some ∅)) "config"
    (VList (declaration <$>
              [("consumer.Console", [(VString "Enable", VBool true);
                                     (VString "Stream", VString "s")]);
               ("producer.File", [(VString "File", VString "/tmp/out")]);
               ("consumer.Console", [(VString "Stream", VString "t")])])) =
    Ok (mkConfig (Some m'), true) ∧
  (∀ class, plugins_of m' class =
            plugins_of ∅ class ++
            (declared_plugin ∘ snd <$>
               filter (λ d, d.1 = class)
                 [("consumer.Console", [(VString "Enable", VBool true);
                                        (VString "Stream", VString "s")]);
                  ("producer.File", [(VString "File", VString "/tmp/out")]);
                  ("consumer.Console", [(VString "Stream", VString "t")])])) ∧
  (∀ d, d ∈ [("consumer.Console", [(VString "Enable", VBool true);
                                   (VString "Stream", VString "s")]);
             ("producer.File", [(VString "File", VString "/tmp/out")]);
             ("consumer.Console", [(VString "Stream", VString "t")])] →
        ∀ k v, k ≠ "Enable" →
        Settings (declared_plugin d.2) !! k = Some v ↔ (VString k, v) ∈ d.2).
Proof.
apply (SetYAML_appends_declared_plugins ∅ "config").
repeat constructor; simpl; try (intros [=]; eauto);
  rewrite ?list_elem_of_singleton, ?elem_of_nil, ?elem_of_cons; intuition congruence.
Defined.

(** ** The typed getters *)

Lemma GetString_declared conf key d :
string_typed conf key →
GetString conf key d = Run [Touch key] (Ok (declared_string conf key d)).
Proof.
unfold string_typed, GetString, declared_string.
destruct (Settings conf !! key) as [[]|]; done.
Qed.

Lemma GetString_ill_typed conf key d :
¬ string_typed conf key →
GetString conf key d = Run [Touch key] (Abort "invalid option type").
Proof.
unfold string_typed, GetString.
destruct (Settings conf !! key) as [[]|]; try done; intros H; by destruct H.
Qed.

(** Every getter records the key it was asked for, and nothing else. *)
Lemma getters_touch conf key ds di db :
trace_of (GetString conf key ds) = [Touch key] ∧
trace_of (GetInt conf key di) = [Touch key] ∧
trace_of (GetBool conf key db) = [Touch key].
Proof.
unfold GetString, GetInt, GetBool.
destruct (Settings conf !! key) as [[]|]; done.
Qed.

(** C5: a typed getter returns the caller's default when the key is not
  among the declared settings, and the declared value when it is; so
  [Profiler.Create] obtains Runs = 10000, Batches = 10 and Length = 256
  when the three keys are not declared. *)
Theorem getters_default_or_declared (conf : PluginConfig) (key : string) :
(Settings conf !! key = None →
   ∀ (di : Z) (ds : string) (db : bool),
     result_of (GetInt conf key di) = Ok di ∧
     result_of (GetString conf key ds) = Ok ds ∧
     result_of (GetBool conf key db) = Ok db) ∧
(∀ n di, Settings conf !! key = Some (VInt n) →
         result_of (GetInt conf key di) = Ok n) ∧
(∀ s ds, Settings conf !! key = Some (VString s) →
         result_of (GetString conf key ds) = Ok s) ∧
(∀ b db, Settings conf !! key = Some (VBool b) →
         result_of (GetBool conf key db) = Ok b) ∧
(∀ configureStandardConsumer cons,
   Settings conf !! "Runs" = None →
   Settings conf !! "Batches" = None →
   Settings conf !! "Length" = None →
   result_of (Profiler.Create configureStandardConsumer cons conf) =
   Ok (Profiler.mkProfiler 10000 10 256, configureStandardConsumer conf)).
Proof.
repeat split.
- unfold GetInt. by rewrite H.
- unfold GetString. by rewrite H.
- unfold GetBool. by rewrite H.
- intros n di H. unfold GetInt. by rewrite H.
- intros s ds H. unfold GetString. by rewrite H.
- intros b db H. unfold GetBool. by rewrite H.
- intros cfg cons Hr Hb Hl. unfold Profiler.Create, GetInt.
  by rewrite Hr, Hb, Hl.
Qed.

Lemma getters_default_or_declared_witness :
result_of (GetInt (mkPluginConfig true {[ "Runs" := VInt 5 ]}) "Runs" 10000) = Ok 5 ∧
result_of (GetInt (mkPluginConfig true {[ "Runs" := VInt 5 ]}) "Batches" 10) = Ok 10 ∧
result_of (Profiler.Create (λ _, None) (Profiler.mkProfiler 0 0 0)
             (mkPluginConfig true {[ "Stream" := VString "profile" ]})) =
Ok (Profiler.mkProfiler 10000 10 256, None).
Proof.
split; [|split].
- destruct (getters_default_or_declared
              (mkPluginConfig true {[ "Runs" := VInt 5 ]}) "Runs")
    as (_ & Hint & _).
  apply Hint. reflexivity.
- destruct (getters_default_or_declared
              (mkPluginConfig true {[ "Runs" := VInt 5 ]}) "Batches")
    as (Habsent & _).
  apply (Habsent eq_refl 10 "" true).
- destruct (getters_default_or_declared
              (mkPluginConfig true {[ "Stream" := VString "profile" ]}) "Stream")
    as (_ & _ & _ & _ & Hcreate).
  apply Hcreate; reflexivity.
Defined.

(** ** Syslogd.Configure *)

Section Configure_facts.

Variable ConsumerBase_Configure : PluginConfig → option string.
Variable ParseAddress : string → string * string.

Abbreviation configure := (Configure ConsumerBase_Configure ParseAddress).

(** The format switch neither fails nor touches the server. *)
Lemma selectFormat_spec cons formatName :
  ∃ cons' err,
    result_of (selectFormat cons formatName) = Ok (cons', err) ∧
    (err ≠ None ↔ formatName ∉ ["RFC3164"; "RFC5424"; "RFC6587"]) ∧
    server_calls (trace_of (selectFormat cons formatName)) = [] ∧
    enqueued (trace_of (selectFormat cons formatName)) = [] ∧
    sequence cons' = sequence cons.
Proof.
  unfold selectFormat.
  repeat (case_decide; simpl); eexists _, _;
    (split; [reflexivity|]); (split; [|done]); subst;
    rewrite ?elem_of_cons, ?elem_of_nil.
  all: intuition congruence.
Qed.

Lemma Configure_base_error cons conf e :
  ConsumerBase_Configure conf = Some e →
  configure cons conf = Run [] (Ok (cons, Some e)).
Proof. intros H. unfold Configure. by rewrite H. Qed.

(** A declared option of the wrong type ends the call. *)
Lemma Configure_ill_typed cons conf :
  ConsumerBase_Configure conf = None →
  ¬ (string_typed conf "Address" ∧ string_typed conf "Format") →
  ∃ t, configure cons conf = Run t (Abort "invalid option type").
Proof.
  intros Hbase Hbad. unfold Configure. rewrite Hbase.
  destruct (decide (string_typed conf "Address")) as [Ha|Ha].
  - rewrite (GetString_declared _ _ _ Ha).
    rewrite GetString_ill_typed by tauto. simpl. eauto.
  - rewrite (GetString_ill_typed _ _ _ Ha). simpl. eauto.
Qed.

Lemma Configure_typed cons conf :
  ConsumerBase_Configure conf = None →
  string_typed conf "Address" → string_typed conf "Format" →
  configure cons conf =
  (let cons := set_protocol
                 (set_address cons (ParseAddress (configured_address conf)).1)
                 (ParseAddress (configured_address conf)).2 in
   emit (Touch "Address");; emit (Touch "Format");;
   if known_protocol (protocol cons) then
     '(cons, err) ← selectFormat cons (configured_format conf);
     mret (set_sequence cons (Some 0), err)
   else mret (cons, Some ("Syslog: unknown protocol type " +:+ protocol cons))).
Proof.
  intros Hbase Ha Hf. unfold Configure. rewrite Hbase.
  rewrite (GetString_declared _ _ _ Ha), (GetString_declared _ _ _ Hf).
  fold (configured_address conf). fold (configured_format conf). simpl.
  destruct (known_protocol _); [|done].
  by destruct (selectFormat _ _) as [t [[c e]|w]].
Qed.

(** C3: [Configure] returns a non-nil error if and only if the base
    configuration fails, the protocol of the configured address is none of
    udp, tcp and unix, or the configured format is none of RFC3164,
    RFC5424 and RFC6587.  It makes no call on a syslog server and
    enqueues nothing: the error is there before any worker is started. *)
Theorem Configure_error_iff (cons : Syslogd) (conf : PluginConfig) :
  string_typed conf "Address" → string_typed conf "Format" →
  ∃ cons' err,
    result_of (configure cons conf) = Ok (cons', err) ∧
    (err ≠ None ↔
       ConsumerBase_Configure conf ≠ None ∨
       (ParseAddress (configured_address conf)).2 ∉ ["udp"; "tcp"; "unix"] ∨
       configured_format conf ∉ ["RFC3164"; "RFC5424"; "RFC6587"]) ∧
    server_calls (trace_of (configure cons conf)) = [] ∧
    enqueued (trace_of (configure cons conf)) = [].
Proof.
  intros Ha Hf. destruct (ConsumerBase_Configure conf) as [e|] eqn:Hbase.
  - rewrite (Configure_base_error _ _ _ Hbase). simpl.
    exists cons, (Some e). repeat split; auto.
  - rewrite (Configure_typed _ _ Hbase Ha Hf). cbv zeta.
    set (cons1 := set_protocol _ _).
    assert (protocol cons1 = (ParseAddress (configured_address conf)).2) as Hp by done.
    rewrite !trace_bind_emit, !result_bind_emit. rewrite <- Hp.
    unfold known_protocol. case_bool_decide as Hknown.
    + destruct (selectFormat_spec cons1 (configured_format conf))
        as (cons2 & err & Hres & Herr & Hsrv & Henq & _).
      destruct (selectFormat cons1 (configured_format conf)) as [t r].
      simpl in Hres, Hsrv, Henq. subst r. simpl.
      exists (set_sequence cons2 (Some 0)), err. rewrite app_nil_r.
      repeat split; auto.
      * intros H. right. right. by apply Herr.
      * intros [H|[H|H]]; [done | done | by apply Herr].
    + simpl. eexists _, _. repeat split; auto.
Qed.

(** C9: with format RFC3164 or RFC5424 and protocol tcp, [Configure] sets
    the protocol to udp and returns no error. *)
Theorem Configure_coerces_tcp_to_udp (cons : Syslogd) (conf : PluginConfig) :
  ConsumerBase_Configure conf = None →
  string_typed conf "Address" → string_typed conf "Format" →
  (ParseAddress (configured_address conf)).2 = "tcp" →
  configured_format conf = "RFC3164" ∨ configured_format conf = "RFC5424" →
  ∃ cons',
    result_of (configure cons conf) = Ok (cons', None) ∧
    protocol cons' = "udp" ∧
    address cons' = (ParseAddress (configured_address conf)).1 ∧
    format cons' = (if decide (configured_format conf = "RFC3164")
                    then RFC3164 else RFC5424) ∧
    sequence cons' = Some 0.
Proof.
  intros Hbase Ha Hf Htcp Hfmt.
  rewrite (Configure_typed _ _ Hbase Ha Hf). cbv zeta.
  rewrite !result_bind_emit. simpl. rewrite Htcp. simpl.
  unfold selectFormat.
  destruct Hfmt as [-> | ->]; simpl; eexists; repeat split.
Qed.

(** The coercion is announced on the warning log. *)
Lemma Configure_coercion_warns cons conf :
  ConsumerBase_Configure conf = None →
  string_typed conf "Address" → string_typed conf "Format" →
  (ParseAddress (configured_address conf)).2 = "tcp" →
  configured_format conf = "RFC3164" ∨ configured_format conf = "RFC5424" →
  trace_of (configure cons conf) =
  [Touch "Address"; Touch "Format";
   LogPrint "Warning" ("Syslog: " +:+ configured_format conf +:+ " demands UDP")].
Proof.
  intros Hbase Ha Hf Htcp Hfmt.
  rewrite (Configure_typed _ _ Hbase Ha Hf). cbv zeta.
  rewrite !trace_bind_emit. simpl. rewrite Htcp. simpl.
  unfold selectFormat.
  by destruct Hfmt as [-> | ->].
Qed.

(** A [Configure] that got past the protocol check leaves a fresh counter. *)
Lemma Configure_fresh_sequence cons conf cons' :
  result_of (configure cons conf) = Ok (cons', None) →
  sequence cons' = Some 0.
Proof.
  unfold Configure. destruct (ConsumerBase_Configure conf); [done|].
  destruct (GetString conf "Address" _) as [t1 [a|w]]; [|done]. simpl.
  destruct (GetString conf "Format" _) as [t2 [f|w]]; [|done]. simpl.
  destruct (known_protocol _); [|done].
  destruct (selectFormat _ f) as [t3 [[c e]|w]]; [|done]. simpl.
  by intros [= <- ->].
Qed.

End Configure_facts.

Lemma Configure_error_iff_witness :
∃ cons' err,
  result_of (Configure (λ _, None) exampleParseAddress Syslogd_zero
               (mkPluginConfig true {[ "Address" := VString "http://localhost:80" ]}))
  = Ok (cons', err) ∧
  (err ≠ None ↔
     (None : option string) ≠ None ∨
     (exampleParseAddress
        (configured_address
           (mkPluginConfig true {[ "Address" := VString "http://localhost:80" ]}))).2
     ∉ ["udp"; "tcp"; "unix"] ∨
     configured_format
       (mkPluginConfig true {[ "Address" := VString "http://localhost:80" ]})
     ∉ ["RFC3164"; "RFC5424"; "RFC6587"]) ∧
  server_calls
    (trace_of (Configure (λ _, None) exampleParseAddress Syslogd_zero
                 (mkPluginConfig true {[ "Address" := VString "http://localhost:80" ]})))
  = [] ∧
  enqueued
    (trace_of (Configure (λ _, None) exampleParseAddress Syslogd_zero
                 (mkPluginConfig true {[ "Address" := VString "http://localhost:80" ]})))
  = [].
Proof.
apply (Configure_error_iff (λ _, None) exampleParseAddress Syslogd_zero
         (mkPluginConfig true {[ "Address" := VString "http://localhost:80" ]}));
  vm_compute; exact I.
Defined.

Lemma Configure_coerces_tcp_to_udp_witness :
∃ cons',
  result_of (Configure (λ _, None) exampleParseAddress Syslogd_zero
               (mkPluginConfig true {[ "Address" := VString "tcp://0.0.0.0:5880";
                                       "Format" := VString "RFC5424" ]}))
  = Ok (cons', None) ∧
  protocol cons' = "udp" ∧
  address cons' =
    (exampleParseAddress
       (configured_address
          (mkPluginConfig true {[ "Address" := VString "tcp://0.0.0.0:5880";
                                  "Format" := VString "RFC5424" ]}))).1 ∧
  format cons' =
    (if decide (configured_format
                  (mkPluginConfig true {[ "Address" := VString "tcp://0.0.0.0:5880";
                                          "Format" := VString "RFC5424" ]})
                = "RFC3164")
     then RFC3164 else RFC5424) ∧
  sequence cons' = Some 0.
Proof.
apply (Configure_coerces_tcp_to_udp (λ _, None) exampleParseAddress Syslogd_zero
         (mkPluginConfig true {[ "Address" := VString "tcp://0.0.0.0:5880";
                                 "Format" := VString "RFC5424" ]})).
- reflexivity.
- vm_compute. exact I.
- vm_compute. exact I.
- vm_compute. reflexivity.
- right. vm_compute. reflexivity.
Defined.

(** ** Syslogd.Handle *)

Lemma uint64_modulus_gt_1 : 1 < uint64_modulus.
Proof. reflexivity. Qed.

Lemma enqueued_app t t' : enqueued (t ++ t') = enqueued t ++ enqueued t'.
Proof. apply omap_app. Qed.

(** C8: when the field [Handle] reads is absent or holds no string, nothing
  is enqueued and the consumer, its sequence counter included, is as it
  was. *)
Theorem Handle_rejects_non_string
  (cons : Syslogd) (parts : gmap string value) (code : Z) (err : option string) :
(∀ field s, expected_field (format cons) = Some field →
            parts !! field ≠ Some (VString s)) →
result_of (Handle cons parts code err) = Ok cons ∧
enqueued (trace_of (Handle cons parts code err)) = [].
Proof.
intros Hno. unfold Handle.
assert (∀ field, expected_field (format cons) = Some field →
                 string_of_entry (parts !! field) = (EmptyString, false)) as Hentry.
{ intros field Hf. specialize (Hno field).
  destruct (parts !! field) as [[]|]; try done. by destruct (Hno s Hf). }
destruct (format cons); simpl; [done | | | ];
  by rewrite (Hentry _ eq_refl).
Qed.

Lemma Handle_rejects_non_string_witness :
result_of (Handle (set_sequence (set_format Syslogd_zero RFC3164) (Some 7))
             {[ "message" := VString "m"; "content" := VInt 3 ]} 0 None)
= Ok (set_sequence (set_format Syslogd_zero RFC3164) (Some 7)) ∧
enqueued (trace_of (Handle (set_sequence (set_format Syslogd_zero RFC3164) (Some 7))
                      {[ "message" := VString "m"; "content" := VInt 3 ]} 0 None))
= [].
Proof.
apply (Handle_rejects_non_string
         (set_sequence (set_format Syslogd_zero RFC3164) (Some 7))
         {[ "message" := VString "m"; "content" := VInt 3 ]} 0 None).
intros field s [= <-]. vm_compute. discriminate.
Defined.

Lemma Handle_accepts cons call n :
accepted (format cons) call → sequence cons = Some n →
∃ payload,
  Handle cons call.1.1 call.1.2 call.2 =
  Run [Enqueue payload n]
      (Ok (set_sequence cons (Some ((n + 1) mod uint64_modulus)))).
Proof.
intros (field & s & Hf & Hs) Hn. exists (bytes_of s). unfold Handle.
destruct (format cons); simpl in *; try discriminate;
  injection Hf as <-; rewrite Hs; simpl; by rewrite Hn.
Qed.

(** With an allocated counter a call either enqueues under the current
  number and advances the counter, or leaves everything as it was. *)
Lemma Handle_step cons parts code err n :
sequence cons = Some n →
∃ t cons',
  Handle cons parts code err = Run t (Ok cons') ∧
  format cons' = format cons ∧
  ((enqueued t = [n] ∧ sequence cons' = Some ((n + 1) mod uint64_modulus)) ∨
   (enqueued t = [] ∧ cons' = cons)).
Proof.
intros Hn. unfold Handle.
destruct (format cons) eqn:Hfmt; simpl.
- eexists _, _. split; [done|]. split; [done|]. by right.
- destruct (string_of_entry (parts !! "content")) as [content []]; simpl.
  + rewrite Hn. simpl. eexists _, _. split; [done|]. split; [done|]. by left.
  + eexists _, _. split; [done|]. split; [done|]. by right.
- destruct (string_of_entry (parts !! "message")) as [content []]; simpl.
  + rewrite Hn. simpl. eexists _, _. split; [done|]. split; [done|]. by left.
  + eexists _, _. split; [done|]. split; [done|]. by right.
- destruct (string_of_entry (parts !! "message")) as [content []]; simpl.
  + rewrite Hn. simpl. eexists _, _. split; [done|]. split; [done|]. by left.
  + eexists _, _. split; [done|]. split; [done|]. by right.
Qed.

Lemma HandleAll_cons cons parts code err rest t cons' :
Handle cons parts code err = Run t (Ok cons') →
HandleAll cons ((parts, code, err) :: rest) =
Run (t ++ trace_of (HandleAll cons' rest)) (result_of (HandleAll cons' rest)).
Proof. intros H. simpl. rewrite H. simpl. by destruct (HandleAll cons' rest). Qed.

(** From a counter at [n], the calls are numbered [n], [n + 1], ... modulo
  [2^64], and the counter ends at the next number. *)
Lemma HandleAll_numbers calls : ∀ cons n,
sequence cons = Some n → 0 ≤ n < uint64_modulus →
∃ cons',
  result_of (HandleAll cons calls) = Ok cons' ∧
  format cons' = format cons ∧
  (∀ i, (i < List.length (enqueued (trace_of (HandleAll cons calls))))%nat →
        enqueued (trace_of (HandleAll cons calls)) !! i =
        Some ((n + Z.of_nat i) mod uint64_modulus)) ∧
  sequence cons' =
  Some ((n + Z.of_nat (List.length (enqueued (trace_of (HandleAll cons calls)))))
        mod uint64_modulus).
Proof.
pose proof uint64_modulus_gt_1 as HM.
induction calls as [|[[parts code] err] rest IH]; intros cons n Hn Hrange.
- exists cons. simpl. repeat split; [intros i Hi; lia|].
  rewrite Hn, Z.add_0_r, Z.mod_small; done.
- destruct (Handle_step cons parts code err n Hn)
    as (t & cons1 & Hstep & Hfmt & [[Henq Hseq] | [Henq ->]]).
  + rewrite (HandleAll_cons _ _ _ _ _ _ _ Hstep). simpl.
    destruct (IH cons1 ((n + 1) mod uint64_modulus) Hseq)
      as (cons' & Hres & Hfmt' & Hnth & Hlast).
    { apply Z.mod_pos_bound. lia. }
    exists cons'. rewrite enqueued_app, Henq. simpl.
    split; [done|]. split; [congruence|]. split.
    * intros [|i] Hi; simpl.
      -- by rewrite Z.add_0_r, Z.mod_small.
      -- rewrite Hnth by lia. f_equal.
         rewrite Zplus_mod_idemp_l. f_equal. lia.
    * rewrite Hlast. f_equal. rewrite Zplus_mod_idemp_l. f_equal. lia.
  + rewrite (HandleAll_cons _ _ _ _ _ _ _ Hstep). simpl.
    destruct (IH cons n Hn Hrange) as (cons' & Hres & Hfmt' & Hnth & Hlast).
    exists cons'. rewrite enqueued_app, Henq. simpl. done.
Qed.

(** When every call carries a string, every call enqueues. *)
Lemma HandleAll_all_accepted calls : ∀ cons n,
sequence cons = Some n →
Forall (accepted (format cons)) calls →
List.length (enqueued (trace_of (HandleAll cons calls))) = List.length calls.
Proof.
induction calls as [|[[parts code] err] rest IH]; intros cons n Hn Hall; [done|].
apply Forall_cons in Hall as [Hhead Hrest].
destruct (Handle_accepts _ _ _ Hhead Hn) as [payload Hstep]. simpl in Hstep.
rewrite (HandleAll_cons _ _ _ _ _ _ _ Hstep). simpl. f_equal.
by apply (IH _ ((n + 1) mod uint64_modulus)).
Qed.

(** C2, as the code has it: on a consumer whose counter [Configure] has just
  set to 0, every sequence of [Handle] calls returns, and the [k]-th number
  passed to [Enqueue] is [k mod 2^64], counting from 0; as long as no more
  than [2^64] messages were enqueued the numbers are 0, 1, 2, ... and so
  strictly increasing. *)
Theorem Handle_sequence_numbers
  (cons : Syslogd) (calls : list (gmap string value * Z * option string)) :
sequence cons = Some 0 →
∃ cons',
  result_of (HandleAll cons calls) = Ok cons' ∧
  (∀ i, (i < List.length (enqueued (trace_of (HandleAll cons calls))))%nat →
        enqueued (trace_of (HandleAll cons calls)) !! i =
        Some (Z.of_nat i mod uint64_modulus)) ∧
  (Z.of_nat (List.length (enqueued (trace_of (HandleAll cons calls)))) ≤ uint64_modulus →
   (∀ i, (i < List.length (enqueued (trace_of (HandleAll cons calls))))%nat →
         enqueued (trace_of (HandleAll cons calls)) !! i = Some (Z.of_nat i)) ∧
   strictly_increasing (enqueued (trace_of (HandleAll cons calls)))).
Proof.
pose proof uint64_modulus_gt_1 as HM. intros Hzero.
destruct (HandleAll_numbers calls cons 0 Hzero) as (cons' & Hres & _ & Hnth & _);
  [lia|].
exists cons'. split; [done|]. split; [exact Hnth|].
intros Hlen.
assert (∀ i, (i < List.length (enqueued (trace_of (HandleAll cons calls))))%nat →
             enqueued (trace_of (HandleAll cons calls)) !! i = Some (Z.of_nat i))
  as Hexact.
{ intros i Hi. rewrite (Hnth i Hi). f_equal. simpl. apply Z.mod_small. lia. }
split; [exact Hexact|].
intros i j a b Hij Ha Hb.
pose proof (lookup_lt_Some _ _ _ Ha) as Hi.
pose proof (lookup_lt_Some _ _ _ Hb) as Hj.
rewrite (Hexact i Hi) in Ha. rewrite (Hexact j Hj) in Hb.
injection Ha as <-. injection Hb as <-. lia.
Qed.

Lemma Handle_sequence_numbers_witness :
∃ cons',
  result_of (HandleAll exampleConsumer exampleCalls) = Ok cons' ∧
  (∀ i, (i < List.length (enqueued (trace_of (HandleAll exampleConsumer exampleCalls))))%nat →
        enqueued (trace_of (HandleAll exampleConsumer exampleCalls)) !! i =
        Some (Z.of_nat i mod uint64_modulus)) ∧
  (Z.of_nat (List.length (enqueued (trace_of (HandleAll exampleConsumer exampleCalls))))
     ≤ uint64_modulus →
   (∀ i, (i < List.length (enqueued (trace_of (HandleAll exampleConsumer exampleCalls))))%nat →
         enqueued (trace_of (HandleAll exampleConsumer exampleCalls)) !! i =
         Some (Z.of_nat i)) ∧
   strictly_increasing (enqueued (trace_of (HandleAll exampleConsumer exampleCalls)))).
Proof.
apply (Handle_sequence_numbers exampleConsumer exampleCalls).
reflexivity.
Defined.

(** A list numbered modulo [M] and one longer than [M] falls back to 0. *)
Lemma numbered_modulo_wraps (numbers : list Z) (M : Z) :
1 < M →
List.length numbers = S (Z.to_nat M) →
(∀ i, (i < List.length numbers)%nat →
      numbers !! i = Some ((0 + Z.of_nat i) mod M)) →
numbers !! (Z.to_nat M - 1)%nat = Some (M - 1) ∧
numbers !! Z.to_nat M = Some 0 ∧
¬ strictly_increasing numbers.
Proof.
intros HM Hlen Hnth.
assert (numbers !! (Z.to_nat M - 1)%nat = Some (M - 1)) as Ha.
{ rewrite Hnth by lia. f_equal. rewrite Z.add_0_l.
  replace (Z.of_nat (Z.to_nat M - 1)) with (M - 1) by lia.
  apply Z.mod_small. lia. }
assert (numbers !! Z.to_nat M = Some 0) as Hb.
{ rewrite Hnth by lia. f_equal. rewrite Z.add_0_l, Z2Nat.id by lia.
  apply Z_mod_same_full. }
split; [exact Ha|]. split; [exact Hb|].
intros Hinc.
assert (Z.to_nat M - 1 < Z.to_nat M)%nat as Hlt by lia.
specialize (Hinc _ _ _ _ Hlt Ha Hb). lia.
Qed.

(** The claim of C2 fails for long runs: the counter is a [uint64].  On the
  consumer that [Configure] leaves for the default options, [2^64 + 1]
  messages are enqueued under the numbers 0, ..., [2^64 - 1], 0: the last
  number is below the one before it. *)
Lemma Handle_sequence_wraps :
let cons := mkSyslogd (mret tt) (mret tt) RFC6587 "udp" "0.0.0.0:514" (Some 0) in
let calls := repeat (({[ "message" := VString "m" ]} : gmap string value), 0, @None string)
                    (S (Z.to_nat uint64_modulus)) in
let numbers := enqueued (trace_of (HandleAll cons calls)) in
result_of (Configure (λ _, None) exampleParseAddress Syslogd_zero (mkPluginConfig true ∅))
  = Ok (cons, None) ∧
numbers !! (Z.to_nat uint64_modulus - 1)%nat = Some (uint64_modulus - 1) ∧
numbers !! Z.to_nat uint64_modulus = Some 0 ∧
¬ strictly_increasing numbers.
Proof.
intros cons calls numbers.
split; [vm_compute; reflexivity|].
assert (sequence cons = Some 0) as Hzero by reflexivity.
apply numbered_modulo_wraps.
- exact uint64_modulus_gt_1.
- unfold numbers. rewrite (HandleAll_all_accepted calls cons 0 Hzero).
  + unfold calls. apply repeat_length.
  + unfold calls. apply Forall_forall. intros call Hin.
    apply list_elem_of_In, repeat_spec in Hin. subst call.
    exists "message", "m". split; reflexivity.
- destruct (HandleAll_numbers calls cons 0 Hzero) as (_ & _ & _ & Hnth & _).
  + split; [reflexivity | exact (Z.lt_trans _ _ _ Z.lt_0_1 uint64_modulus_gt_1)].
  + exact Hnth.
Qed.

(** ** Syslogd.Consume *)

Lemma server_calls_app t t' : server_calls (t ++ t') = server_calls t ++ server_calls t'.
Proof. apply omap_app. Qed.

Lemma listen_spec cons bound :
result_of (listen cons bound) = Ok tt ∧
server_calls (trace_of (listen cons bound)) = listen_calls cons.
Proof.
unfold listen, listen_calls.
repeat case_decide; destruct bound; done.
Qed.

Lemma Consume_setup_spec cons bound :
result_of (Consume_setup cons bound) =
  Ok (SetFuseActiveCallback (SetFuseBurnedCallback cons burnedCallback) activeCallback) ∧
server_calls (trace_of (Consume_setup cons bound)) = setup_calls cons.
Proof.
unfold Consume_setup, setup_calls.
destruct (listen_spec cons bound) as [Hres Hcalls].
destruct (listen cons bound) as [t r]. simpl in Hres, Hcalls. subst r.
simpl. rewrite server_calls_app, Hcalls. done.
Qed.

(** The control loop with the two callbacks of [Consume] in place: a burn
  signal makes one [Kill] call, an activate signal one [Boot] call, up to
  the first stop. *)
Lemma ControlLoop_calls cons control : ∀ received,
onFuseBurned cons = burnedCallback →
onFuseActive cons = activeCallback →
∃ e,
  result_of (ControlLoop cons control received) = Ok e ∧
  server_calls (trace_of (ControlLoop cons control received)) =
    omap fuse_call (before_stop control) ∧
  (e = Waiting ↔ Forall (λ s, is_stop s = false) control).
Proof.
induction control as [|s rest IH]; intros received Hb Ha.
- exists Waiting. simpl. split; [done|]. split; [done|]. by split.
- destruct (IH (S received) Hb Ha) as (e & Hres & Hcalls & Hwait).
  assert (e = Waiting ↔ Forall (λ s, is_stop s = false) (Roll :: rest)) as Hroll.
  { rewrite Forall_cons. simpl. tauto. }
  destruct s; simpl.
  + eexists. split; [done|]. split; [done|]. split; [done|].
    intros Hall. by apply Forall_cons in Hall as [? _].
  + eexists. split; [done|]. split; [done|]. split; [done|].
    intros Hall. by apply Forall_cons in Hall as [? _].
  + exists e. split; [done|]. by split.
  + rewrite Hb. unfold burnedCallback.
    rewrite trace_bind_emit, result_bind_emit. simpl.
    exists e. split; [done|]. split; [by f_equal|].
    rewrite Hroll, !Forall_cons. simpl. tauto.
  + rewrite Ha. unfold activeCallback.
    rewrite trace_bind_emit, result_bind_emit. simpl.
    exists e. split; [done|]. split; [by f_equal|].
    rewrite Hroll, !Forall_cons. simpl. tauto.
Qed.

(** C4: [Consume] registers as burn callback a call of [Kill] on the server
  it has created, and as activate callback a call of [Boot] on it.  Under
  the control loop every burn signal before the stop kills the server and
  every activate signal boots it again; after the stop the server is
  waited for and killed. *)
Theorem Consume_fuse_callbacks (cons : Syslogd) (bound : bool) (control : list signal) :
∃ cons' e,
  result_of (Consume cons bound control) = Ok (cons', e) ∧
  onFuseBurned cons' = Run [Server Kill] (Ok tt) ∧
  onFuseActive cons' = Run [Server Boot] (Ok tt) ∧
  server_calls (trace_of (Consume cons bound control)) =
    setup_calls cons ++ omap fuse_call (before_stop control) ++ teardown_calls e ∧
  (e = Waiting ↔ Forall (λ s, is_stop s = false) control).
Proof.
unfold Consume.
destruct (Consume_setup_spec cons bound) as [Hres Hcalls].
destruct (Consume_setup cons bound) as [t r]. simpl in Hres, Hcalls. subst r.
simpl.
set (cons1 := SetFuseActiveCallback (SetFuseBurnedCallback cons burnedCallback)
                                    activeCallback).
destruct (ControlLoop_calls cons1 control 0 eq_refl eq_refl)
  as (e & Hloop & Hfuse & Hwait).
destruct (ControlLoop cons1 control 0) as [t' r']. simpl in Hloop, Hfuse. subst r'.
exists cons1, e. destruct e as [n|]; simpl;
  rewrite !server_calls_app, Hcalls, Hfuse; simpl; rewrite ?app_nil_r; done.
Qed.

(** ** Profiler.Consume *)

Section Profiler_Consume_facts.

Variable ConsumerControlStop : Z.

Abbreviation waitForStop := (Profiler.waitForStop ConsumerControlStop).

Lemma waitForStop_Returned control : ∀ received n,
  waitForStop control received = Returned n ↔
  ∃ i, n = S (received + i) ∧ control !! i = Some ConsumerControlStop ∧
       ∀ j command, (j < i)%nat → control !! j = Some command →
                    command ≠ ConsumerControlStop.
Proof.
  induction control as [|command rest IH]; intros received n; simpl.
  - split; [done | by intros (i & _ & ? & _)].
  - case_decide as Hstop.
    + subst command. split.
      * intros [= <-]. exists 0%nat. split; [lia|]. split; [done|]. intros; lia.
      * intros (i & -> & Hi & Hbefore). destruct i as [|i]; [f_equal; lia|].
        by destruct (Hbefore 0%nat ConsumerControlStop ltac:(lia) eq_refl).
    + rewrite IH. split.
      * intros (i & -> & Hi & Hbefore). exists (S i). split; [lia|]. split; [done|].
        intros [|j] c Hj Hc; simpl in Hc; [congruence|].
        apply (Hbefore j); [lia | done].
      * intros (i & -> & Hi & Hbefore). destruct i as [|i]; [simpl in Hi; congruence|].
        exists i. split; [lia|]. split; [done|].
        intros j c Hj Hc. apply (Hbefore (S j)); [lia | done].
Qed.

Lemma waitForStop_Waiting control : ∀ received,
  waitForStop control received = Waiting ↔ ConsumerControlStop ∉ control.
Proof.
  induction control as [|command rest IH]; intros received; simpl.
  - split; [intros _; apply not_elem_of_nil | done].
  - rewrite not_elem_of_cons. case_decide as Hstop.
    + split; [done | intros [? _]; congruence].
    + rewrite IH. split; [intros ?; split; [congruence | done] | by intros [_ ?]].
Qed.

(** C7: [Consume] returns exactly on the first [ConsumerControlStop] read
    from the control channel; after any other signal it goes on waiting,
    and as long as no stop has been sent it has not returned. *)
Theorem Profiler_Consume_returns_on_stop
    (source : nat → Z) (cons : Profiler.Profiler) (control : list Z) :
  (∀ n, (Profiler.Consume ConsumerControlStop source cons control).2 = Returned n ↔
        ∃ i, n = S i ∧ control !! i = Some ConsumerControlStop ∧
             ∀ j command, (j < i)%nat → control !! j = Some command →
                          command ≠ ConsumerControlStop) ∧
  ((Profiler.Consume ConsumerControlStop source cons control).2 = Waiting ↔
   ConsumerControlStop ∉ control).
Proof.
  unfold Profiler.Consume. simpl. split.
  - intros n. apply (waitForStop_Returned control 0 n).
  - apply waitForStop_Waiting.
Qed.

End Profiler_Consume_facts.

(** ** Profiler.profile *)

Section Profiler_profile_facts.

Variable source : nat → Z.

Lemma stringBase_length : List.length Profiler.stringBase = 74%nat.
Proof. reflexivity. Qed.

(** [rand.Intn] stays inside [stringBase]: the slice is always filled. *)
Lemma fillRandString_total calls :
  ∃ randString,
    Profiler.fillRandString source calls = Ok randString ∧
    List.length randString = List.length calls ∧
    Forall (λ r, r ∈ Profiler.stringBase) randString.
Proof.
  induction calls as [|i rest (rs & Hrs & Hlen & Hin)].
  - by exists [].
  - destruct (lookup_lt_is_Some_2 Profiler.stringBase
                (Z.to_nat (Profiler.Intn source i
                             (Z.of_nat (List.length Profiler.stringBase))))) as [r Hr].
    { rewrite stringBase_length. unfold Profiler.Intn.
      pose proof (Z.mod_pos_bound (source i) (Z.of_nat 74)). lia. }
    cbn [Profiler.fillRandString]. rewrite Hr, Hrs. simpl. exists (r :: rs). split; [done|]. split; [simpl; by f_equal|].
    constructor; [|done]. by eapply list_elem_of_lookup_2.
Qed.

Lemma posted_app t t' :
  Profiler.posted (t ++ t') = Profiler.posted t ++ Profiler.posted t'.
Proof. apply omap_app. Qed.

Lemma for_each_post (f : Z → string) l :
  Profiler.for_each l (λ i, emit (PostMessage (f i))) = Run (PostMessage ∘ f <$> l) (Ok tt).
Proof.
  induction l as [|i rest IH]; [done|]. simpl. by rewrite IH.
Qed.

Lemma posted_messages (f : Z → string) l :
  Profiler.posted (PostMessage ∘ f <$> l) = f <$> l.
Proof. induction l as [|i rest IH]; [done|]. simpl. by f_equal. Qed.

Lemma batch_spec cons randString b :
  ∃ t, Profiler.batch cons randString b = Run t (Ok tt) ∧
       Profiler.posted t =
       Profiler.batch_payloads (Profiler.profileRuns cons) randString.
Proof.
  unfold Profiler.batch. rewrite for_each_post. simpl. eexists. split; [done|].
  rewrite posted_app, posted_messages. simpl. by rewrite app_nil_r.
Qed.

Lemma for_each_batch cons randString (bs : list Z) :
  ∃ t, Profiler.for_each bs (Profiler.batch cons randString) = Run t (Ok tt) ∧
       Profiler.posted t =
       mjoin ((λ _, Profiler.batch_payloads (Profiler.profileRuns cons) randString)
                <$> bs).
Proof.
  induction bs as [|b rest (t & Ht & Hposted)]; [by exists []|].
  destruct (batch_spec cons randString b) as (tb & Hb & Hpb).
  simpl. rewrite Hb, Ht. simpl. eexists. split; [done|].
  by rewrite posted_app, Hpb, Hposted.
Qed.

Lemma run_payloads_length batches runs randString :
  Z.of_nat (List.length (Profiler.run_payloads batches runs randString)) =
  Z.max 0 batches * Z.max 0 runs.
Proof.
  unfold Profiler.run_payloads, Profiler.batch_payloads.
  assert (∀ (bs : list Z) (row : list string),
            List.length (mjoin ((λ _, row) <$> bs)) =
            (List.length bs * List.length row)%nat) as Hjoin.
  { intros bs row. induction bs as [|b rest IH]; [done|].
    change (mjoin ((λ _, row) <$> b :: rest))
      with (row ++ mjoin ((λ _ : Z, row) <$> rest)).
    rewrite length_app, IH. simpl. lia. }
  rewrite Hjoin, length_fmap, !length_seqZ. lia.
Qed.

End Profiler_profile_facts.

Lemma run_payloads_shape batches runs randString :
Forall (λ payload, ∃ i, 0 ≤ i < runs ∧
                        payload = pretty i +:+ "/" +:+ pretty runs +:+ " " +:+
                                  Profiler.string_of_runes randString)
       (Profiler.run_payloads batches runs randString).
Proof.
unfold Profiler.run_payloads.
induction (seqZ 0 batches) as [|b rest IH]; [constructor|].
change (mjoin ((λ _, Profiler.batch_payloads runs randString) <$> b :: rest))
  with (Profiler.batch_payloads runs randString ++
        mjoin ((λ _ : Z, Profiler.batch_payloads runs randString) <$> rest)).
apply Forall_app. split; [|exact IH].
unfold Profiler.batch_payloads. apply Forall_fmap, Forall_forall.
intros i Hi. apply elem_of_seqZ in Hi. exists i. split; [lia | done].
Qed.

(** A negative [Length] makes [make] panic before anything is posted. *)
Lemma profile_negative_length source cons :
Profiler.length cons < 0 →
Profiler.profile source cons = Run [] (Abort "makeslice: len out of range").
Proof.
intros Hneg. unfold Profiler.profile, Profiler.makeRandString.
by rewrite (proj2 (Z.ltb_lt _ _) Hneg).
Qed.

(** C10, as the code has it: with Runs [r], Batches [b] and a Length [l]
  that is not negative, one run of [profile] returns and posts
  [max 0 b * max 0 r] messages ([b * r] when neither is negative): batch
  after batch the payloads ["i/r "] followed by one and the same string of
  [l] runes drawn from [stringBase], for [i] from 0 to [r - 1]. *)
Theorem profile_posts (source : nat → Z) (cons : Profiler.Profiler) :
0 ≤ Profiler.length cons →
∃ randString,
  Profiler.makeRandString source cons = Ok randString ∧
  Z.of_nat (List.length randString) = Profiler.length cons ∧
  Forall (λ r, r ∈ Profiler.stringBase) randString ∧
  result_of (Profiler.profile source cons) = Ok tt ∧
  Profiler.posted (trace_of (Profiler.profile source cons)) =
    Profiler.run_payloads (Profiler.batches cons) (Profiler.profileRuns cons) randString ∧
  Z.of_nat (List.length (Profiler.posted (trace_of (Profiler.profile source cons)))) =
    Z.max 0 (Profiler.batches cons) * Z.max 0 (Profiler.profileRuns cons) ∧
  Forall (λ payload,
            ∃ i, 0 ≤ i < Profiler.profileRuns cons ∧
                 payload = pretty i +:+ "/" +:+ pretty (Profiler.profileRuns cons) +:+ " "
                           +:+ Profiler.string_of_runes randString)
         (Profiler.posted (trace_of (Profiler.profile source cons))).
Proof.
intros Hlen.
destruct (fillRandString_total source (seq 0 (Z.to_nat (Profiler.length cons))))
  as (rs & Hfill & Hrs & Hbase).
assert (Profiler.makeRandString source cons = Ok rs) as Hmake.
{ unfold Profiler.makeRandString. by rewrite (proj2 (Z.ltb_ge _ _) Hlen). }
destruct (for_each_batch cons rs (seqZ 0 (Profiler.batches cons)))
  as (t & Ht & Hposted).
assert (Profiler.profile source cons = Run t (Ok tt)) as Hprofile.
{ unfold Profiler.profile. rewrite Hmake. simpl. by rewrite Ht. }
exists rs. rewrite Hprofile. simpl. rewrite Hposted.
fold (Profiler.run_payloads (Profiler.batches cons) (Profiler.profileRuns cons) rs).
split; [done|]. split; [rewrite Hrs, length_seq; lia|]. split; [done|].
split; [done|]. split; [done|].
split; [apply run_payloads_length | apply run_payloads_shape].
Qed.

Lemma profile_posts_witness :
∃ randString,
  Profiler.makeRandString (λ k, Z.of_nat k * 7) (Profiler.mkProfiler 2 3 4) = Ok randString ∧
  Z.of_nat (List.length randString) = 4 ∧
  Forall (λ r, r ∈ Profiler.stringBase) randString ∧
  result_of (Profiler.profile (λ k, Z.of_nat k * 7) (Profiler.mkProfiler 2 3 4)) = Ok tt ∧
  Profiler.posted (trace_of (Profiler.profile (λ k, Z.of_nat k * 7)
                               (Profiler.mkProfiler 2 3 4))) =
    Profiler.run_payloads 3 2 randString ∧
  Z.of_nat (List.length (Profiler.posted
               (trace_of (Profiler.profile (λ k, Z.of_nat k * 7)
                            (Profiler.mkProfiler 2 3 4))))) =
    Z.max 0 3 * Z.max 0 2 ∧
  Forall (λ payload,
            ∃ i, 0 ≤ i < 2 ∧
                 payload = pretty i +:+ "/" +:+ pretty 2 +:+ " "
                           +:+ Profiler.string_of_runes randString)
         (Profiler.posted (trace_of (Profiler.profile (λ k, Z.of_nat k * 7)
                                       (Profiler.mkProfiler 2 3 4)))).
Proof.
apply (profile_posts (λ k, Z.of_nat k * 7) (Profiler.mkProfiler 2 3 4)).
simpl. lia.
Defined.

Example profile_two_by_two :
Profiler.posted (trace_of (Profiler.profile (λ k, Z.of_nat k * 7)
                             (Profiler.mkProfiler 2 2 3))) =
["0/2 aho"; "1/2 aho"; "0/2 aho"; "1/2 aho"].
Proof. vm_compute. reflexivity. Qed.

(** The claim of C10 fails on negative options.  With Runs = -1 and
  Batches = -1 neither loop is entered and nothing is posted, where
  [b * r] is 1; with Length = -1, Runs = 1 and Batches = 1 the call
  panics in [make] and nothing is posted either. *)
Lemma profile_negative_options_post_nothing :
Z.of_nat (List.length (Profiler.posted
            (trace_of (Profiler.profile (λ _, 0) (Profiler.mkProfiler (-1) (-1) 3)))))
  ≠ (-1) * (-1) ∧
Profiler.profile (λ _, 0) (Profiler.mkProfiler 1 1 (-1)) =
  Run [] (Abort "makeslice: len out of range") ∧
Z.of_nat (List.length (Profiler.posted
            (trace_of (Profiler.profile (λ _, 0) (Profiler.mkProfiler 1 1 (-1))))))
  ≠ 1 * 1.
Proof. vm_compute. repeat split; discriminate. Qed.

(** * Further properties *)

(** ** Config.SetYAML: composition, growth, accepted inputs *)

(** Two lists of declarations read one after the other give what their
    concatenation gives; the tag plays no role. *)
Theorem SetYAML_concat (conf : Config) (tag tag1 tag2 : string) (l1 l2 : list value) :
  SetYAML conf tag (VList (l1 ++ l2)) =
  SetYAML conf tag1 (VList l1) ≫= λ r, SetYAML r.1 tag2 (VList l2).
Proof.
  unfold SetYAML. simpl. rewrite readPlugins_app.
  destruct (readPlugins l1 conf) as [conf1|w]; [|done]. simpl.
  by destruct (readPlugins l2 conf1).
Qed.

(** [SetYAML] only appends: the plugins a class had before the call are, in
    the same order, the first ones of its list after the call. *)
Theorem SetYAML_keeps_plugins
    (conf conf' : Config) (tag : string) (values : value) (b : bool)
    (m : gmap string (list PluginConfig)) :
  SetYAML conf tag values = Ok (conf', b) →
  Config_Settings conf = Some m →
  b = true ∧
  ∃ m', Config_Settings conf' = Some m' ∧
        ∀ class, plugins_of m class `prefix_of` plugins_of m' class.
Proof.
  unfold SetYAML. intros Hrun Hm.
  apply result_bind_Ok in Hrun as (l & _ & Hrun).
  apply result_bind_Ok in Hrun as (conf1 & Hrun & Hret).
  injection Hret as -> <-. split; [done|].
  by apply (readPlugins_extends _ _ _ Hrun).
Qed.

Lemma SetYAML_keeps_plugins_witness :
  true = true ∧
  ∃ m', Config_Settings
          (mkConfig (Some {[ "a" := [mkPluginConfig true ∅; mkPluginConfig false ∅] ]}))
        = Some m' ∧
        ∀ class, plugins_of {[ "a" := [mkPluginConfig true ∅] ]} class
                 `prefix_of` plugins_of m' class.
Proof.
  apply (SetYAML_keeps_plugins
           (mkConfig (Some {[ "a" := [mkPluginConfig true ∅] ]})) _ "config"
           (VList [declaration ("a", [])]) true).
  - vm_compute. reflexivity.
  - reflexivity.
Defined.

Lemma readSettings_returns settings : ∀ plugin,
  (∃ plugin', readSettings settings plugin = Ok plugin') ↔ Forall key_ok settings.
Proof.
  induction settings as [|[k v] rest IH]; intros plugin.
  - split; [constructor | by exists plugin].
  - rewrite Forall_cons. simpl.
    destruct k as [| | | |key| |]; simpl; try (split; [by intros [? ?] | by intros [? ?]]).
    destruct (decide (key = "Enable")) as [->|Hne].
    + destruct v as [|e| | | | |]; simpl;
        try (split; [by intros [? ?] | by intros [[? ?]%(λ H, H eq_refl) _]]).
      rewrite IH. split; [intros ?; split; [eauto | done] | by intros [_ ?]].
    + simpl. rewrite IH. split; [intros ?; split; [done | done] | by intros [_ ?]].
Qed.

Lemma readClasses_allocated entries : ∀ conf conf',
  readClasses entries conf = Ok conf' →
  (Config_Settings conf' = None ↔ Config_Settings conf = None) ∧
  (Config_Settings conf = None → entries = []).
Proof.
  induction entries as [|[k v] rest IH]; intros conf conf' Hrun.
  - by injection Hrun as <-.
  - simpl in Hrun.
    apply result_bind_Ok in Hrun as (settings & _ & Hrun).
    apply result_bind_Ok in Hrun as (plugin & _ & Hrun).
    apply result_bind_Ok in Hrun as (class & _ & Hrun).
    apply result_bind_Ok in Hrun as (conf1 & Hadd & Hrun).
    apply addPlugin_Ok in Hadd as (m & Hm & ->).
    destruct (IH _ _ Hrun) as [Hiff _]. simpl in Hiff. rewrite Hm.
    split; [|done]. rewrite Hiff. done.
Qed.

Lemma readClasses_returns entries : ∀ conf,
  (∃ conf', readClasses entries conf = Ok conf') ↔
  Forall entry_ok entries ∧ (Config_Settings conf = None → entries = []).
Proof.
  induction entries as [|[k v] rest IH]; intros conf.
  - split; [by split | by exists conf].
  - split.
    + intros [conf' Hrun].
      destruct (readClasses_allocated _ _ _ Hrun) as [_ Hnil].
      split; [|done]. simpl in Hrun.
      apply result_bind_Ok in Hrun as (settings & Hmap & Hrun).
      apply result_bind_Ok in Hrun as (plugin & Hread & Hrun).
      apply result_bind_Ok in Hrun as (class & Hclass & Hrun).
      apply result_bind_Ok in Hrun as (conf1 & Hadd & Hrun).
      destruct v; try discriminate. injection Hmap as ->.
      destruct k; try discriminate.
      constructor.
      * simpl. apply (readSettings_returns settings (mkPluginConfig false ∅)). eauto.
      * by destruct (proj1 (IH conf1) (ex_intro _ _ Hrun)).
    + intros [Hok Hnil]. apply Forall_cons in Hok as [Hentry Hrest].
      destruct k as [| | | |class| |]; try done.
      destruct v as [| | | | | |settings]; try done. simpl in Hentry.
      destruct (proj2 (readSettings_returns settings (mkPluginConfig false ∅)) Hentry)
        as [plugin Hplugin].
      destruct (Config_Settings conf) as [m|] eqn:Hm; [|by specialize (Hnil eq_refl)].
      simpl. rewrite Hplugin. simpl. unfold addPlugin. rewrite Hm. simpl.
      apply IH. split; [done|]. simpl. done.
Qed.

Lemma readPlugins_returns pluginList : ∀ conf,
  (∃ conf', readPlugins pluginList conf = Ok conf') ↔
  Forall declaration_ok pluginList ∧
  (Config_Settings conf = None → Forall (λ d, d = VMap []) pluginList).
Proof.
  induction pluginList as [|d rest IH]; intros conf.
  - split; [by split | by exists conf].
  - split.
    + intros [conf' Hrun]. simpl in Hrun.
      apply result_bind_Ok in Hrun as (entries & Hmap & Hrun).
      apply result_bind_Ok in Hrun as (conf1 & Hcls & Hrun).
      destruct d; try discriminate. injection Hmap as ->.
      destruct (readClasses_allocated _ _ _ Hcls) as [Hiff Hnil].
      destruct (proj1 (readClasses_returns entries conf) (ex_intro _ _ Hcls)) as [Hentries _].
      destruct (proj1 (IH conf1) (ex_intro _ _ Hrun)) as [Hrest Hempty].
      split; [by constructor|].
      intros Hconf. constructor; [by rewrite (Hnil Hconf) | apply Hempty; by apply Hiff].
    + intros [Hok Hnil]. apply Forall_cons in Hok as [Hd Hrest].
      destruct d as [| | | | | |entries]; try done. simpl in Hd.
      destruct (proj2 (readClasses_returns entries conf)) as [conf1 Hcls].
      { split; [done|]. intros Hconf. specialize (Hnil Hconf).
        apply Forall_cons in Hnil as [Heq _]. by injection Heq. }
      simpl. rewrite Hcls. simpl. apply IH. split; [done|].
      intros Hconf1. destruct (readClasses_allocated _ _ _ Hcls) as [Hiff _].
      specialize (Hnil (proj1 Hiff Hconf1)). by apply Forall_cons in Hnil as [_ ?].
Qed.

(** [SetYAML] returns, rather than panics, exactly on a sequence of maps
    whose entries are a string class over a settings map with string keys
    and a boolean under [Enable]; on a configuration whose map was never
    allocated, only when no declaration has an entry. *)
Theorem SetYAML_returns_iff (conf : Config) (tag : string) (values : value) :
  (∃ r, SetYAML conf tag values = Ok r) ↔
  ∃ pluginList,
    values = VList pluginList ∧
    Forall declaration_ok pluginList ∧
    (Config_Settings conf = None → Forall (λ d, d = VMap []) pluginList).
Proof.
  unfold SetYAML. split.
  - intros [r Hrun].
    apply result_bind_Ok in Hrun as (l & Hlist & Hrun).
    apply result_bind_Ok in Hrun as (conf1 & Hrun & _).
    destruct values; try discriminate. injection Hlist as ->.
    exists l. split; [done|]. apply readPlugins_returns. eauto.
  - intros (l & -> & Hshape). simpl.
    destruct (proj2 (readPlugins_returns l conf) Hshape) as [conf1 ->]. simpl. eauto.
Qed.

(** ** Config.SetYAML: the [Enable] key *)

Lemma readSettings_Enable_setting settings : ∀ plugin plugin',
  readSettings settings plugin = Ok plugin' →
  Settings plugin' !! "Enable" = Settings plugin !! "Enable".
Proof.
  induction settings as [|[k v] rest IH]; intros plugin plugin' Hrun.
  - by injection Hrun as <-.
  - simpl in Hrun.
    apply result_bind_Ok in Hrun as (key & _ & Hrun).
    apply result_bind_Ok in Hrun as (plugin1 & Hstep & Hrun).
    rewrite (IH _ _ Hrun).
    destruct (decide (key = "Enable")) as [->|Hne].
    + apply result_bind_Ok in Hstep as (e & _ & Hstep). by injection Hstep as <-.
    + injection Hstep as <-. simpl. by rewrite lookup_insert_ne.
Qed.

Lemma addPlugin_no_Enable class plugin conf conf' :
  addPlugin class plugin conf = Ok conf' →
  Settings plugin !! "Enable" = None →
  no_Enable_setting conf → no_Enable_setting conf'.
Proof.
  intros (m & Hm & ->)%addPlugin_Ok Hplugin Hinv m' class' p [= <-] Hp.
  rewrite plugins_of_insert in Hp. destruct (decide (class = class')) as [<-|].
  - apply elem_of_app in Hp as [Hold | ->%list_elem_of_singleton]; [|done].
    by apply (Hinv m class p).
  - by apply (Hinv m class' p).
Qed.

Lemma readClasses_no_Enable entries : ∀ conf conf',
  readClasses entries conf = Ok conf' →
  no_Enable_setting conf → no_Enable_setting conf'.
Proof.
  induction entries as [|[k v] rest IH]; intros conf conf' Hrun Hinv.
  - by injection Hrun as <-.
  - simpl in Hrun.
    apply result_bind_Ok in Hrun as (settings & _ & Hrun).
    apply result_bind_Ok in Hrun as (plugin & Hread & Hrun).
    apply result_bind_Ok in Hrun as (class & _ & Hrun).
    apply result_bind_Ok in Hrun as (conf1 & Hadd & Hrun).
    apply (IH _ _ Hrun). apply (addPlugin_no_Enable _ _ _ _ Hadd); [|done].
    by rewrite (readSettings_Enable_setting _ _ _ Hread).
Qed.

Lemma readPlugins_no_Enable pluginList : ∀ conf conf',
  readPlugins pluginList conf = Ok conf' →
  no_Enable_setting conf → no_Enable_setting conf'.
Proof.
  induction pluginList as [|d rest IH]; intros conf conf' Hrun Hinv.
  - by injection Hrun as <-.
  - simpl in Hrun.
    apply result_bind_Ok in Hrun as (entries & _ & Hrun).
    apply result_bind_Ok in Hrun as (conf1 & Hcls & Hrun).
    apply (IH _ _ Hrun). by apply (readClasses_no_Enable _ _ _ Hcls).
Qed.

(** [Enable] is kept in the field of that name only: if no plugin of the
    configuration has the key among its settings before [SetYAML], none has
    it afterwards, whatever was declared. *)
Theorem SetYAML_never_stores_Enable
    (conf conf' : Config) (tag : string) (values : value) (b : bool) :
  SetYAML conf tag values = Ok (conf', b) →
  no_Enable_setting conf →
  no_Enable_setting conf'.
Proof.
  unfold SetYAML. intros Hrun Hinv.
  apply result_bind_Ok in Hrun as (l & _ & Hrun).
  apply result_bind_Ok in Hrun as (conf1 & Hrun & Hret).
  injection Hret as -> _. by apply (readPlugins_no_Enable _ _ _ Hrun).
Qed.

Lemma SetYAML_never_stores_Enable_witness :
  no_Enable_setting
    (mkConfig (Some {[ "consumer.Console" :=
                         [mkPluginConfig true {[ "Stream" := VString "s" ]}] ]})).
Proof.
  apply (SetYAML_never_stores_Enable emptyConfig _ "config"
           (VList [declaration ("consumer.Console",
                                [(VString "Enable", VBool true);
                                 (VString "Stream", VString "s")])]) true).
  - vm_compute. reflexivity.
  - intros m class plugin [= <-] Hin. unfold plugins_of in Hin.
    rewrite lookup_empty in Hin. simpl in Hin. by apply elem_of_nil in Hin.
Defined.

Lemma find_has_key k v settings :
  NoDup settings.*1 → (VString k, v) ∈ settings →
  find (has_key k) settings = Some (VString k, v).
Proof.
  induction settings as [|[k' v'] rest IH]; intros Hnodup Hin.
  - by apply elem_of_nil in Hin.
  - simpl in Hnodup. apply NoDup_cons in Hnodup as [Hfresh Hnodup].
    apply elem_of_cons in Hin as [[= <- <-] | Hin].
    + simpl. unfold has_key. simpl. by rewrite bool_decide_eq_true_2.
    + simpl. unfold has_key at 1. simpl.
      destruct k' as [| | | |s| |]; try by apply IH.
      rewrite bool_decide_eq_false_2; [by apply IH|].
      intros ->. apply Hfresh. apply list_elem_of_fmap. by exists (VString k, v).
Qed.

(** The declaration in the middle of a list that [SetYAML] got through. *)
Lemma SetYAML_middle conf conf' tag pre post class settings b :
  SetYAML conf tag (VList (pre ++ declaration (class, settings) :: post)) = Ok (conf', b) →
  ∃ before after plugin,
    SetYAML conf tag (VList pre) = Ok (mkConfig (Some before), true) ∧
    Config_Settings conf' = Some after ∧
    plugins_of after class !! List.length (plugins_of before class) = Some plugin ∧
    readSettings settings (mkPluginConfig false ∅) = Ok plugin.
Proof.
  unfold SetYAML. simpl. intros Hrun.
  apply result_bind_Ok in Hrun as (conf3 & Hrun & Hret).
  injection Hret as -> <-.
  rewrite readPlugins_app in Hrun.
  apply result_bind_Ok in Hrun as (conf1 & Hpre & Hrun).
  simpl in Hrun.
  apply result_bind_Ok in Hrun as (conf2 & Hdecl & Hpost).
  apply result_bind_Ok in Hdecl as (plugin & Hread & Hdecl).
  simpl in Hdecl.
  apply result_bind_Ok in Hdecl as (conf2' & Hadd & Hdecl).
  injection Hdecl as ->.
  apply addPlugin_Ok in Hadd as (before & Hbefore & ->).
  apply readPlugins_extends in Hpost.
  destruct (Hpost _ eq_refl) as (after & Hafter & Hprefix).
  exists before, after, plugin. split; [|split; [|split]].
  - rewrite Hpre. simpl. destruct conf1 as [c]. simpl in Hbefore. by subst c.
  - exact Hafter.
  - destruct (Hprefix class) as [more Hmore]. rewrite Hmore.
    rewrite plugins_of_insert. destruct (decide (class = class)); [|done].
    rewrite <- app_assoc. by rewrite lookup_app_r, Nat.sub_diag.
  - exact Hread.
Qed.

(** A declaration that says [Enable: e] yields a plugin whose [Enable] is
    [e], and whose settings are the other entries of the declaration. *)
Theorem SetYAML_declared_Enable
    (conf conf' : Config) (tag : string) (pre post : list value)
    (class : string) (settings : list (value * value)) (b e : bool) :
  SetYAML conf tag (VList (pre ++ declaration (class, settings) :: post)) = Ok (conf', b) →
  NoDup settings.*1 →
  (VString "Enable", VBool e) ∈ settings →
  ∃ before after,
    SetYAML conf tag (VList pre) = Ok (mkConfig (Some before), true) ∧
    Config_Settings conf' = Some after ∧
    plugins_of after class !! List.length (plugins_of before class) =
      Some (mkPluginConfig e (declared_settings settings)).
Proof.
  intros Hrun Hnodup Hin.
  destruct (SetYAML_middle _ _ _ _ _ _ _ _ Hrun)
    as (before & after & plugin & Hpre & Hafter & Hlookup & Hread).
  exists before, after. split; [done|]. split; [done|].
  assert (settings_ok settings) as Hok.
  { split; [|done].
    apply (readSettings_returns settings (mkPluginConfig false ∅)). eauto. }
  rewrite (readSettings_fresh _ Hok) in Hread. injection Hread as <-.
  rewrite Hlookup. unfold declared_plugin, declared_enable.
  by rewrite (find_has_key _ _ _ Hnodup Hin).
Qed.

Lemma SetYAML_declared_Enable_witness :
  ∃ before after,
    SetYAML emptyConfig "config" (VList []) = Ok (mkConfig (Some before), true) ∧
    Config_Settings
      (mkConfig (Some {[ "consumer.Console" :=
                           [mkPluginConfig true {[ "Stream" := VString "s" ]}] ]}))
      = Some after ∧
    plugins_of after "consumer.Console"
      !! List.length (plugins_of before "consumer.Console") =
      Some (mkPluginConfig true
              (declared_settings [(VString "Enable", VBool true);
                                  (VString "Stream", VString "s")])).
Proof.
  apply (SetYAML_declared_Enable emptyConfig _ "config" [] []
           "consumer.Console"
           [(VString "Enable", VBool true); (VString "Stream", VString "s")] true true).
  - vm_compute. reflexivity.
  - simpl. repeat constructor;
      rewrite ?elem_of_cons, ?elem_of_nil; intuition congruence.
  - apply list_elem_of_here.
Defined.

(** ** Syslogd.Configure: what it leaves behind *)

Section Configure_outcomes.

Variable ConsumerBase_Configure : PluginConfig → option string.
Variable ParseAddress : string → string * string.

Abbreviation configure' := (Configure ConsumerBase_Configure ParseAddress).

(** Whenever the call returns past the base configuration, both options
    were well typed. *)
Lemma Configure_returns_typed cons conf r :
  ConsumerBase_Configure conf = None →
  result_of (configure' cons conf) = Ok r →
  string_typed conf "Address" ∧ string_typed conf "Format".
Proof.
  intros Hbase Hres.
  destruct (decide (string_typed conf "Address" ∧ string_typed conf "Format"))
    as [?|Hbad]; [done|].
  destruct (Configure_ill_typed ConsumerBase_Configure ParseAddress cons conf Hbase Hbad)
    as [t Ht].
  rewrite Ht in Hres. discriminate.
Qed.

Lemma selectFormat_outcome cons formatName cons' err :
  result_of (selectFormat cons formatName) = Ok (cons', err) →
  address cons' = address cons ∧
  onFuseBurned cons' = onFuseBurned cons ∧
  onFuseActive cons' = onFuseActive cons ∧
  sequence cons' = sequence cons ∧
  match err with
  | None => format cons' ≠ NoFormat ∧
            (protocol cons' = protocol cons ∨
             protocol cons = "tcp" ∧ protocol cons' = "udp") ∧
            (protocol cons' = "tcp" → format cons' = RFC6587)
  | Some _ => format cons' = format cons ∧ protocol cons' = protocol cons
  end.
Proof.
  unfold selectFormat.
  repeat (case_decide; simpl); intros [= <- <-]; simpl;
    repeat split; auto; try discriminate; congruence.
Qed.

Lemma Configure_success_fields (cons cons' : Syslogd) (conf : PluginConfig) :
  result_of (configure' cons conf) = Ok (cons', None) →
  format cons' ≠ NoFormat ∧
  protocol cons' ∈ ["udp"; "tcp"; "unix"] ∧
  (protocol cons' = "tcp" → format cons' = RFC6587) ∧
  address cons' = (ParseAddress (configured_address conf)).1 ∧
  sequence cons' = Some 0.
Proof.
  intros Hres.
  destruct (ConsumerBase_Configure conf) as [e|] eqn:Hbase.
  { by rewrite (Configure_base_error _ _ _ _ _ Hbase) in Hres. }
  destruct (Configure_returns_typed _ _ _ Hbase Hres) as [Ha Hf].
  rewrite (Configure_typed _ _ _ _ Hbase Ha Hf) in Hres. cbv zeta in Hres.
  rewrite !result_bind_emit in Hres.
  set (cons1 := set_protocol _ _) in Hres.
  unfold known_protocol in Hres. case_bool_decide as Hknown; [|done].
  destruct (selectFormat cons1 (configured_format conf)) as [t [[cons2 err]|w]] eqn:Hsel;
    [|done].
  simpl in Hres. injection Hres as <- ->.
  pose proof (selectFormat_outcome cons1 (configured_format conf) cons2 None) as Hout.
  rewrite Hsel in Hout. destruct (Hout eq_refl) as (Haddr & _ & _ & _ & Hfmt & Hproto & Htcp).
  simpl. split; [done|]. split; [|split; [done|split; [done|done]]].
  destruct Hproto as [-> | [_ ->]]; [done|]. apply list_elem_of_here.
Qed.

(** A [Configure] that returns no error leaves one of the three formats, one
    of the three protocols, tcp only together with RFC6587, the address the
    parser cut out of the [Address] option, and a counter at 0. *)
Theorem Configure_success_shape (cons cons' : Syslogd) (conf : PluginConfig) :
  result_of (configure' cons conf) = Ok (cons', None) →
  format cons' ≠ NoFormat ∧
  protocol cons' ∈ ["udp"; "tcp"; "unix"] ∧
  (protocol cons' = "tcp" → format cons' = RFC6587) ∧
  address cons' = (ParseAddress (configured_address conf)).1 ∧
  sequence cons' = Some 0.
Proof. apply Configure_success_fields. Qed.

(** A [Configure] that returns an error has not selected a format: the
    consumer has the format it had. *)
Lemma Configure_error_keeps_format cons conf cons' e :
  result_of (configure' cons conf) = Ok (cons', Some e) →
  format cons' = format cons.
Proof.
  intros Hres.
  destruct (ConsumerBase_Configure conf) as [e'|] eqn:Hbase.
  { rewrite (Configure_base_error _ _ _ _ _ Hbase) in Hres. by injection Hres as <- _. }
  destruct (Configure_returns_typed _ _ _ Hbase Hres) as [Ha Hf].
  rewrite (Configure_typed _ _ _ _ Hbase Ha Hf) in Hres. cbv zeta in Hres.
  rewrite !result_bind_emit in Hres.
  set (cons1 := set_protocol _ _) in Hres.
  destruct (known_protocol (protocol cons1)).
  - destruct (selectFormat cons1 (configured_format conf)) as [t [[cons2 err]|w]] eqn:Hsel;
      [|done].
    simpl in Hres. injection Hres as <- ->.
    pose proof (selectFormat_outcome cons1 (configured_format conf) cons2 (Some e)) as Hout.
    rewrite Hsel in Hout. destruct (Hout eq_refl) as (_ & _ & _ & _ & Hfmt & _).
    simpl. by rewrite Hfmt.
  - simpl in Hres. by injection Hres as <- _.
Qed.

(** Whatever [Configure] returns, a consumer that has a format afterwards
    has an allocated counter: the invariant [Handle] relies on. *)
Theorem Configure_keeps_Syslogd_ok (cons cons' : Syslogd) (conf : PluginConfig)
    (err : option string) :
  result_of (configure' cons conf) = Ok (cons', err) →
  Syslogd_ok cons →
  Syslogd_ok cons'.
Proof.
  pose proof uint64_modulus_gt_1 as HM.
  intros Hres Hok.
  destruct (ConsumerBase_Configure conf) as [e'|] eqn:Hbase.
  { rewrite (Configure_base_error _ _ _ _ _ Hbase) in Hres. by injection Hres as <- _. }
  destruct (Configure_returns_typed _ _ _ Hbase Hres) as [Ha Hf].
  rewrite (Configure_typed _ _ _ _ Hbase Ha Hf) in Hres. cbv zeta in Hres.
  rewrite !result_bind_emit in Hres.
  set (cons1 := set_protocol _ _) in Hres.
  destruct (known_protocol (protocol cons1)).
  - destruct (selectFormat cons1 (configured_format conf)) as [t [[cons2 err2]|w]];
      [|done].
    simpl in Hres. injection Hres as <- _.
    intros _. exists 0. split; [done | lia].
  - simpl in Hres. injection Hres as <- _. exact Hok.
Qed.

End Configure_outcomes.

Lemma Configure_success_shape_witness :
  format (mkSyslogd (mret tt) (mret tt) RFC6587 "udp" "0.0.0.0:514" (Some 0)) ≠ NoFormat ∧
  protocol (mkSyslogd (mret tt) (mret tt) RFC6587 "udp" "0.0.0.0:514" (Some 0))
    ∈ ["udp"; "tcp"; "unix"] ∧
  (protocol (mkSyslogd (mret tt) (mret tt) RFC6587 "udp" "0.0.0.0:514" (Some 0)) = "tcp" →
   format (mkSyslogd (mret tt) (mret tt) RFC6587 "udp" "0.0.0.0:514" (Some 0)) = RFC6587) ∧
  address (mkSyslogd (mret tt) (mret tt) RFC6587 "udp" "0.0.0.0:514" (Some 0)) =
    (exampleParseAddress (configured_address (mkPluginConfig true ∅))).1 ∧
  sequence (mkSyslogd (mret tt) (mret tt) RFC6587 "udp" "0.0.0.0:514" (Some 0)) = Some 0.
Proof.
  apply (Configure_success_shape (λ _, None) exampleParseAddress Syslogd_zero _
           (mkPluginConfig true ∅)).
  vm_compute. reflexivity.
Defined.

Lemma Configure_keeps_Syslogd_ok_witness :
  Syslogd_ok (mkSyslogd (mret tt) (mret tt) NoFormat "http" "localhost:80" None).
Proof.
  apply (Configure_keeps_Syslogd_ok (λ _, None) exampleParseAddress Syslogd_zero _
           (mkPluginConfig true {[ "Address" := VString "http://localhost:80" ]})
           (Some "Syslog: unknown protocol type http")).
  - vm_compute. reflexivity.
  - intros Hfmt. simpl in Hfmt. congruence.
Defined.

(** ** Syslogd.Handle: safety and what is enqueued *)

Lemma Handle_NoFormat cons parts code err :
  format cons = NoFormat →
  Handle cons parts code err =
  Run [LogPrint "Error" "Could not determine the format to retrieve message/content";
       LogPrint "Error" "Message/Content is not a string"] (Ok cons).
Proof. intros Hfmt. unfold Handle. by rewrite Hfmt. Qed.

Lemma HandleAll_NoFormat calls : ∀ cons,
  format cons = NoFormat →
  result_of (HandleAll cons calls) = Ok cons ∧
  enqueued (trace_of (HandleAll cons calls)) = [].
Proof.
  induction calls as [|[[parts code] err] rest IH]; intros cons Hfmt; [done|].
  rewrite (HandleAll_cons _ _ _ _ _ _ _ (Handle_NoFormat cons parts code err Hfmt)).
  simpl. apply (IH cons Hfmt).
Qed.

(** On a consumer that keeps the invariant, no sequence of [Handle] calls
    panics on the counter, and the invariant holds afterwards. *)
Theorem HandleAll_never_panics
    (cons : Syslogd) (calls : list (gmap string value * Z * option string)) :
  Syslogd_ok cons →
  ∃ cons', result_of (HandleAll cons calls) = Ok cons' ∧ Syslogd_ok cons'.
Proof.
  pose proof uint64_modulus_gt_1 as HM.
  revert cons. induction calls as [|[[parts code] err] rest IH]; intros cons Hok.
  - by exists cons.
  - assert (format cons = NoFormat ∨ format cons ≠ NoFormat) as [Hfmt|Hfmt]
      by (destruct (format cons); auto; right; discriminate).
    + rewrite (HandleAll_cons _ _ _ _ _ _ _ (Handle_NoFormat cons parts code err Hfmt)).
      simpl. by apply IH.
    + destruct (Hok Hfmt) as (n & Hn & Hrange).
      destruct (Handle_step cons parts code err n Hn)
        as (t & cons1 & Hstep & Hfmt1 & Hcase).
      rewrite (HandleAll_cons _ _ _ _ _ _ _ Hstep). simpl. apply IH.
      destruct Hcase as [[_ Hseq] | [_ ->]]; [|done].
      intros _. eexists. split; [exact Hseq|]. apply Z.mod_pos_bound. lia.
Qed.

Lemma HandleAll_never_panics_witness :
  ∃ cons', result_of (HandleAll exampleConsumer exampleCalls) = Ok cons' ∧ Syslogd_ok cons'.
Proof.
  apply (HandleAll_never_panics exampleConsumer exampleCalls).
  intros _. exists 0. split; [reflexivity|]. split; [lia | reflexivity].
Defined.

(** A consumer created as the zero value whose [Configure] returned an
    error enqueues nothing, whatever it is handed afterwards. *)
Theorem failed_Configure_enqueues_nothing
    (ConsumerBase_Configure : PluginConfig → option string)
    (ParseAddress : string → string * string)
    (conf : PluginConfig) (cons' : Syslogd) (e : string)
    (calls : list (gmap string value * Z * option string)) :
  result_of (Configure ConsumerBase_Configure ParseAddress Syslogd_zero conf)
    = Ok (cons', Some e) →
  result_of (HandleAll cons' calls) = Ok cons' ∧
  enqueued (trace_of (HandleAll cons' calls)) = [].
Proof.
  intros Hres. apply HandleAll_NoFormat.
  by rewrite (Configure_error_keeps_format _ _ _ _ _ _ Hres).
Qed.

Lemma failed_Configure_enqueues_nothing_witness :
  result_of (HandleAll (mkSyslogd (mret tt) (mret tt) NoFormat "udp" "0.0.0.0:514" (Some 0))
               exampleCalls)
    = Ok (mkSyslogd (mret tt) (mret tt) NoFormat "udp" "0.0.0.0:514" (Some 0)) ∧
  enqueued (trace_of (HandleAll
                        (mkSyslogd (mret tt) (mret tt) NoFormat "udp" "0.0.0.0:514" (Some 0))
                        exampleCalls)) = [].
Proof.
  apply (failed_Configure_enqueues_nothing (λ _, None) exampleParseAddress
           (mkPluginConfig true {[ "Format" := VString "RFC1234" ]}) _
           "Syslog: Format RFC1234 is not supported" exampleCalls).
  vm_compute. reflexivity.
Defined.

Lemma payloads_app t t' : payloads (t ++ t') = payloads t ++ payloads t'.
Proof. apply omap_app. Qed.

Lemma Handle_payload cons call n :
  sequence cons = Some n →
  ∃ t cons' n',
    Handle cons call.1.1 call.1.2 call.2 = Run t (Ok cons') ∧
    format cons' = format cons ∧
    sequence cons' = Some n' ∧
    payloads t = option_list (payload_of (format cons) call).
Proof.
  intros Hn. destruct call as [[parts code] err]. unfold Handle, payload_of. simpl.
  destruct (format cons) eqn:Hfmt; simpl.
  - eexists _, _, _. split; [done|]. split; [done|]. split; [exact Hn | done].
  - destruct (parts !! "content") as [[]|]; simpl; rewrite ?Hn; simpl;
      eexists _, _, _; (split; [done|]); (split; [done|]); split; (done || exact Hn).
  - destruct (parts !! "message") as [[]|]; simpl; rewrite ?Hn; simpl;
      eexists _, _, _; (split; [done|]); (split; [done|]); split; (done || exact Hn).
  - destruct (parts !! "message") as [[]|]; simpl; rewrite ?Hn; simpl;
      eexists _, _, _; (split; [done|]); (split; [done|]); split; (done || exact Hn).
Qed.

(** What a configured consumer enqueues is, in the order of arrival, the
    text of every message that carries a string in the field of the
    consumer's format ([content] for RFC3164, [message] otherwise); the other
    messages are dropped. *)
Theorem HandleAll_payloads
    (cons : Syslogd) (calls : list (gmap string value * Z * option string)) (n : Z) :
  sequence cons = Some n →
  payloads (trace_of (HandleAll cons calls)) = omap (payload_of (format cons)) calls.
Proof.
  revert cons n. induction calls as [|call rest IH]; intros cons n Hn; [done|].
  destruct (Handle_payload cons call n Hn) as (t & cons1 & n1 & Hstep & Hfmt & Hn1 & Hpay).
  destruct call as [[parts code] err]. simpl in Hstep.
  rewrite (HandleAll_cons _ _ _ _ _ _ _ Hstep). simpl trace_of.
  rewrite payloads_app, Hpay, (IH cons1 n1 Hn1), Hfmt.
  simpl. by destruct (payload_of (format cons) (parts, code, err)).
Qed.

Lemma HandleAll_payloads_witness :
  payloads (trace_of (HandleAll exampleConsumer exampleCalls)) =
  omap (payload_of (format exampleConsumer)) exampleCalls.
Proof.
  apply (HandleAll_payloads exampleConsumer exampleCalls 0). reflexivity.
Defined.

(** ** Syslogd.Consume: sockets, log and the state of the server *)

Lemma logged_app t t' : logged (t ++ t') = logged t ++ logged t'.
Proof. apply omap_app. Qed.

Lemma known_protocol_cases p :
  known_protocol p = true ↔ p = "unix" ∨ p = "udp" ∨ p = "tcp".
Proof.
  unfold known_protocol. rewrite bool_decide_eq_true, !elem_of_cons, elem_of_nil. tauto.
Qed.

(** The events of [listen]: one call for a known protocol, and the error
    line when the socket could not be opened. *)
Lemma listen_trace cons bound :
  trace_of (listen cons bound) =
  (Server <$> listen_calls cons) ++
  (if bound then []
   else if known_protocol (protocol cons)
        then [LogPrint "Error" ("Syslog: Failed to open " +:+ protocol cons +:+ "://"
                                +:+ address cons)]
        else []).
Proof.
  unfold listen, listen_calls.
  destruct (decide (protocol cons = "unix")) as [Hp|Hunix].
  { rewrite Hp. by destruct bound. }
  destruct (decide (protocol cons = "udp")) as [Hp|Hudp].
  { rewrite Hp. by destruct bound. }
  destruct (decide (protocol cons = "tcp")) as [Hp|Htcp].
  { rewrite Hp. by destruct bound. }
  destruct (known_protocol (protocol cons)) eqn:Hknown.
  - apply known_protocol_cases in Hknown. tauto.
  - by destruct bound.
Qed.

Lemma ControlLoop_trace cons control : ∀ received,
  onFuseBurned cons = burnedCallback →
  onFuseActive cons = activeCallback →
  trace_of (ControlLoop cons control received) =
  Server <$> omap fuse_call (before_stop control).
Proof.
  induction control as [|s rest IH]; intros received Hb Ha; [done|].
  specialize (IH (S received) Hb Ha).
  destruct s; simpl; try done.
  - rewrite Hb. unfold burnedCallback. rewrite trace_bind_emit. by f_equal.
  - rewrite Ha. unfold activeCallback. rewrite trace_bind_emit. by f_equal.
Qed.

(** All the events of [Consume], and how it ends; the ending does not
    depend on whether the socket could be opened. *)
Lemma Consume_trace cons control :
  ∃ e,
    (e = Waiting ↔ Forall (λ s, is_stop s = false) control) ∧
    ∀ bound,
      result_of (Consume cons bound control) =
        Ok (SetFuseActiveCallback (SetFuseBurnedCallback cons burnedCallback)
                                  activeCallback, e) ∧
      trace_of (Consume cons bound control) =
        (Server <$> [NewServer; SetFormat (format cons); SetHandler]) ++
        trace_of (listen cons bound) ++
        [Server Boot] ++
        (Server <$> omap fuse_call (before_stop control)) ++
        (Server <$> teardown_calls e).
Proof.
  set (cons1 := SetFuseActiveCallback (SetFuseBurnedCallback cons burnedCallback)
                                      activeCallback).
  destruct (ControlLoop_calls cons1 control 0 eq_refl eq_refl) as (e & Hloop & _ & Hwait).
  pose proof (ControlLoop_trace cons1 control 0 eq_refl eq_refl) as Htrace.
  exists e. split; [done|]. intros bound.
  unfold Consume, Consume_setup.
  destruct (listen_spec cons bound) as [Hres _].
  destruct (listen cons bound) as [tl rl]. simpl in Hres. subst rl. simpl.
  fold cons1.
  destruct (ControlLoop cons1 control 0) as [t' r']. simpl in Hloop, Htrace. subst r' t'.
  destruct e as [n|]; simpl; rewrite <- ?app_assoc; simpl;
    rewrite ?app_nil_r; done.
Qed.

Lemma logged_Server calls : logged (Server <$> calls) = [].
Proof. induction calls as [|c rest IH]; [done|]. exact IH. Qed.

Lemma server_calls_Server calls : server_calls (Server <$> calls) = calls.
Proof. induction calls as [|c rest IH]; [done|]. simpl. by f_equal. Qed.

(** A socket that cannot be opened changes nothing but the log: [Consume]
    prints one error line and goes on to boot the server and to run the
    control loop as it would have. *)
Theorem Consume_bind_failure_is_only_logged (cons : Syslogd) (control : list signal) :
  result_of (Consume cons false control) = result_of (Consume cons true control) ∧
  server_calls (trace_of (Consume cons false control)) =
    server_calls (trace_of (Consume cons true control)) ∧
  logged (trace_of (Consume cons true control)) = [] ∧
  logged (trace_of (Consume cons false control)) =
    (if known_protocol (protocol cons)
     then [("Error", "Syslog: Failed to open " +:+ protocol cons +:+ "://" +:+ address cons)]
     else []).
Proof.
  destruct (Consume_trace cons control) as (e & _ & Hboth).
  destruct (Hboth false) as [Hres Htrace], (Hboth true) as [Hres' Htrace'].
  rewrite Hres, Hres', Htrace, Htrace', !listen_trace.
  rewrite !server_calls_app, !logged_app, !logged_Server, !server_calls_Server.
  simpl. split; [done|]. split; [|split; [done|]].
  - by destruct (known_protocol (protocol cons)).
  - rewrite app_nil_r. by destruct (known_protocol (protocol cons)).
Qed.

(** A consumer whose [Configure] returned no error opens exactly one
    socket in [Consume], on the address cut out of the [Address] option: a
    unix datagram, a UDP or a TCP one, and a TCP one only for RFC6587. *)
Theorem configured_Consume_opens_one_socket
    (ConsumerBase_Configure : PluginConfig → option string)
    (ParseAddress : string → string * string)
    (cons cons' : Syslogd) (conf : PluginConfig) (bound : bool) :
  result_of (Configure ConsumerBase_Configure ParseAddress cons conf) = Ok (cons', None) →
  ∃ socket,
    server_calls (trace_of (Consume_setup cons' bound)) =
      [NewServer; SetFormat (format cons'); SetHandler; socket; Boot] ∧
    socket ∈ [ListenUnixgram (ParseAddress (configured_address conf)).1;
              ListenUDP (ParseAddress (configured_address conf)).1;
              ListenTCP (ParseAddress (configured_address conf)).1] ∧
    (socket = ListenTCP (ParseAddress (configured_address conf)).1 →
     format cons' = RFC6587).
Proof.
  intros Hres.
  destruct (Configure_success_fields _ _ _ _ _ Hres)
    as (_ & Hproto & Htcp & Haddr & _).
  destruct (Consume_setup_spec cons' bound) as [_ ->].
  unfold setup_calls, listen_calls. rewrite Haddr.
  rewrite !elem_of_cons, elem_of_nil in Hproto.
  destruct Hproto as [Hp|[Hp|[Hp|[]]]]; rewrite Hp; simpl; eexists; (split; [done|]);
    rewrite !elem_of_cons; (split; [tauto|]); try discriminate.
  intros _. by apply Htcp.
Qed.

Lemma configured_Consume_opens_one_socket_witness :
  ∃ socket,
    server_calls (trace_of (Consume_setup
        (mkSyslogd (mret tt) (mret tt) RFC6587 "udp" "0.0.0.0:514" (Some 0)) true)) =
      [NewServer;
       SetFormat (format (mkSyslogd (mret tt) (mret tt) RFC6587 "udp" "0.0.0.0:514" (Some 0)));
       SetHandler; socket; Boot] ∧
    socket ∈ [ListenUnixgram (exampleParseAddress (configured_address (mkPluginConfig true ∅))).1;
              ListenUDP (exampleParseAddress (configured_address (mkPluginConfig true ∅))).1;
              ListenTCP (exampleParseAddress (configured_address (mkPluginConfig true ∅))).1] ∧
    (socket = ListenTCP (exampleParseAddress (configured_address (mkPluginConfig true ∅))).1 →
     format (mkSyslogd (mret tt) (mret tt) RFC6587 "udp" "0.0.0.0:514" (Some 0)) = RFC6587).
Proof.
  apply (configured_Consume_opens_one_socket (λ _, None) exampleParseAddress
           Syslogd_zero _ (mkPluginConfig true ∅) true).
  vm_compute. reflexivity.
Defined.

Lemma running_app l1 l2 :
  running (l1 ++ l2) =
  foldl (λ up c, match c with Boot => true | Kill => false | _ => up end) (running l1) l2.
Proof. apply foldl_app. Qed.

Lemma running_fuse_calls control : ∀ up,
  foldl (λ up c, match c with Boot => true | Kill => false | _ => up end) up
        (omap fuse_call control) =
  negb (foldl (λ burned s, match s with
                           | FuseBurn => true
                           | FuseActive => false
                           | _ => burned
                           end) (negb up) control).
Proof.
  induction control as [|s rest IH]; intros up; simpl.
  - by destruct up.
  - destruct s; simpl; by rewrite IH.
Qed.

Lemma before_stop_no_stop control :
  Forall (λ s, is_stop s = false) control → before_stop control = control.
Proof.
  induction 1 as [|s rest Hs _ IH]; [done|]. simpl. rewrite Hs. by f_equal.
Qed.

(** The server is down exactly while the fuse is burned: as long as
    [Consume] waits on the control channel the server is up unless the last
    fuse signal it read was a burn, and when [Consume] has returned the
    server is down. *)
Theorem Consume_server_follows_fuse (cons : Syslogd) (bound : bool) (control : list signal) :
  ∃ cons' e,
    result_of (Consume cons bound control) = Ok (cons', e) ∧
    running (server_calls (trace_of (Consume cons bound control))) =
      match e with
      | Returned _ => false
      | Waiting => negb (fuse_burned control)
      end.
Proof.
  destruct (Consume_trace cons control) as (e & Hwait & Hboth).
  destruct (Hboth bound) as [Hres Htrace].
  eexists _, e. split; [exact Hres|]. rewrite Htrace, listen_trace.
  rewrite !server_calls_app, !server_calls_Server.
  assert (∀ t, running (([NewServer; SetFormat (format cons); SetHandler] ++
                          (listen_calls cons ++ server_calls t) ++ [Boot])) = true) as Hup.
  { intros t. rewrite app_assoc, running_app. done. }
  destruct e as [n|].
  - simpl teardown_calls. rewrite !app_assoc, running_app. done.
  - simpl teardown_calls. rewrite app_nil_r.
    rewrite (before_stop_no_stop control (proj1 Hwait eq_refl)).
    rewrite (app_assoc (listen_calls cons ++ _)), app_assoc.
    rewrite running_app, running_fuse_calls.
    change (server_calls [Server Boot]) with [Boot]. by rewrite Hup.
Qed.

(** ** Profiler.Create *)

Lemma GetInt_declared conf key d :
  int_typed conf key →
  GetInt conf key d = Run [Touch key] (Ok (declared_int conf key d)).
Proof.
  unfold int_typed, GetInt, declared_int.
  destruct (Settings conf !! key) as [[]|]; done.
Qed.

(** [Create] takes each of Runs, Batches and Length from the configuration
    when it is declared there, independently of the others, and its
    default otherwise.  It does so whatever [configureStandardConsumer]
    returned, and hands that error back next to the configured profiler;
    the fields of the receiver play no role. *)
Theorem Create_declared
    (configureStandardConsumer : PluginConfig → option string)
    (cons : Profiler.Profiler) (conf : PluginConfig) :
  int_typed conf "Runs" → int_typed conf "Batches" → int_typed conf "Length" →
  Profiler.Create configureStandardConsumer cons conf =
  Run [Touch "Runs"; Touch "Batches"; Touch "Length"]
      (Ok (Profiler.mkProfiler (declared_int conf "Runs" 10000)
                               (declared_int conf "Batches" 10)
                               (declared_int conf "Length" 256),
           configureStandardConsumer conf)).
Proof.
  intros Hr Hb Hl. unfold Profiler.Create.
  by rewrite (GetInt_declared _ _ _ Hr), (GetInt_declared _ _ _ Hb),
             (GetInt_declared _ _ _ Hl).
Qed.

Lemma Create_declared_witness :
  Profiler.Create (λ _, Some "no stream") (Profiler.mkProfiler 1 2 3)
                  (mkPluginConfig true {[ "Batches" := VInt 4 ]}) =
  Run [Touch "Runs"; Touch "Batches"; Touch "Length"]
      (Ok (Profiler.mkProfiler
             (declared_int (mkPluginConfig true {[ "Batches" := VInt 4 ]}) "Runs" 10000)
             (declared_int (mkPluginConfig true {[ "Batches" := VInt 4 ]}) "Batches" 10)
             (declared_int (mkPluginConfig true {[ "Batches" := VInt 4 ]}) "Length" 256),
           (λ _ : PluginConfig, Some "no stream")
             (mkPluginConfig true {[ "Batches" := VInt 4 ]}))).
Proof.
  apply (Create_declared (λ _, Some "no stream") (Profiler.mkProfiler 1 2 3)
           (mkPluginConfig true {[ "Batches" := VInt 4 ]}));
    vm_compute; exact I.
Defined.

(** ** Profiler.profile: order of events, random draws, bytes *)

Lemma batch_run cons randString b :
  Profiler.batch cons randString b =
  Run (batch_events (Profiler.profileRuns cons) randString b) (Ok tt).
Proof.
  unfold Profiler.batch, batch_events, Profiler.batch_payloads.
  rewrite for_each_post. simpl. by rewrite list_fmap_compose.
Qed.

Lemma for_each_batch_run cons randString (bs : list Z) :
  Profiler.for_each bs (Profiler.batch cons randString) =
  Run (mjoin (batch_events (Profiler.profileRuns cons) randString <$> bs)) (Ok tt).
Proof.
  induction bs as [|b rest IH]; [done|].
  simpl. by rewrite batch_run, IH.
Qed.

Lemma logged_batches runs randString (bs : list Z) :
  logged (mjoin (batch_events runs randString <$> bs)) =
  (λ b, ("Note", "Profile run #" +:+ pretty b)) <$> bs.
Proof.
  induction bs as [|b rest IH]; [done|].
  change (mjoin (batch_events runs randString <$> b :: rest))
    with (batch_events runs randString b ++
          mjoin (batch_events runs randString <$> rest)).
  rewrite logged_app, IH. unfold batch_events. rewrite logged_app.
  assert (∀ l : list string, logged (PostMessage <$> l) = []) as ->.
  { intros l. by induction l. }
  done.
Qed.

(** A run of [profile] is the batches 0, 1, ..., one after the other; each
    batch is its messages followed by its note, so the log holds the notes
    "Profile run #0", "Profile run #1", ... in this order. *)
Theorem profile_events (source : nat → Z) (cons : Profiler.Profiler) :
  0 ≤ Profiler.length cons →
  ∃ randString,
    Profiler.makeRandString source cons = Ok randString ∧
    Profiler.profile source cons =
      Run (mjoin (batch_events (Profiler.profileRuns cons) randString
                    <$> seqZ 0 (Profiler.batches cons))) (Ok tt) ∧
    logged (trace_of (Profiler.profile source cons)) =
      (λ b, ("Note", "Profile run #" +:+ pretty b)) <$> seqZ 0 (Profiler.batches cons).
Proof.
  intros Hlen.
  destruct (fillRandString_total source (seq 0 (Z.to_nat (Profiler.length cons))))
    as (rs & Hfill & _).
  assert (Profiler.makeRandString source cons = Ok rs) as Hmake.
  { unfold Profiler.makeRandString. by rewrite (proj2 (Z.ltb_ge _ _) Hlen). }
  assert (Profiler.profile source cons =
          Run (mjoin (batch_events (Profiler.profileRuns cons) rs
                        <$> seqZ 0 (Profiler.batches cons))) (Ok tt)) as Hprofile.
  { unfold Profiler.profile. rewrite Hmake. simpl. by rewrite for_each_batch_run. }
  exists rs. split; [done|]. split; [done|].
  rewrite Hprofile. apply logged_batches.
Qed.

Lemma profile_events_witness :
  ∃ randString,
    Profiler.makeRandString (λ k, Z.of_nat k * 7) (Profiler.mkProfiler 2 3 4) = Ok randString ∧
    Profiler.profile (λ k, Z.of_nat k * 7) (Profiler.mkProfiler 2 3 4) =
      Run (mjoin (batch_events (Profiler.profileRuns (Profiler.mkProfiler 2 3 4)) randString
                    <$> seqZ 0 (Profiler.batches (Profiler.mkProfiler 2 3 4)))) (Ok tt) ∧
    logged (trace_of (Profiler.profile (λ k, Z.of_nat k * 7) (Profiler.mkProfiler 2 3 4))) =
      (λ b, ("Note", "Profile run #" +:+ pretty b))
        <$> seqZ 0 (Profiler.batches (Profiler.mkProfiler 2 3 4)).
Proof.
  apply (profile_events (λ k, Z.of_nat k * 7) (Profiler.mkProfiler 2 3 4)).
  simpl. lia.
Defined.

Lemma fillRandString_ext source source' calls :
  Forall (λ k, source k = source' k) calls →
  Profiler.fillRandString source calls = Profiler.fillRandString source' calls.
Proof.
  induction 1 as [|k rest Hk _ IH]; [done|].
  simpl. unfold Profiler.Intn. by rewrite Hk, IH.
Qed.

(** [profile] draws exactly [Length] random numbers, all of them before the
    first message: two random sources that agree on the first [Length]
    draws give the same run. *)
Theorem profile_uses_first_draws (source source' : nat → Z) (cons : Profiler.Profiler) :
  (∀ k, (k < Z.to_nat (Profiler.length cons))%nat → source k = source' k) →
  Profiler.profile source cons = Profiler.profile source' cons.
Proof.
  intros Hsame. unfold Profiler.profile, Profiler.makeRandString.
  destruct (Profiler.length cons <? 0); [done|].
  rewrite (fillRandString_ext source source'); [done|].
  apply Forall_forall. intros k Hk. apply Hsame.
  apply elem_of_seq in Hk. lia.
Qed.

Lemma profile_uses_first_draws_witness :
  Profiler.profile (λ k, Z.of_nat k) (Profiler.mkProfiler 2 2 3) =
  Profiler.profile (λ k, Z.of_nat (k mod 3)) (Profiler.mkProfiler 2 2 3).
Proof.
  apply (profile_uses_first_draws (λ k, Z.of_nat k) (λ k, Z.of_nat (k mod 3))
           (Profiler.mkProfiler 2 2 3)).
  intros k Hk. simpl in Hk. f_equal. symmetry. apply Nat.mod_small. lia.
Defined.

Lemma length_string_of_list_ascii (l : list ascii) :
  String.length (string_of_list_ascii l) = List.length l.
Proof. induction l as [|a rest IH]; [done|]. simpl. by f_equal. Qed.

(** In [stringBase] only the section sign takes two bytes. *)
Lemma stringBase_utf8 :
  Forall (λ r, List.length (Profiler.utf8 r) = if decide (r = sectionSign) then 2%nat else 1%nat)
         Profiler.stringBase.
Proof. repeat constructor. Qed.

Lemma string_of_runes_length (rs : list Z) :
  Forall (λ r, r ∈ Profiler.stringBase) rs →
  String.length (Profiler.string_of_runes rs) =
  (List.length rs + List.length (filter (λ r, r = sectionSign) rs))%nat.
Proof.
  unfold Profiler.string_of_runes. rewrite length_string_of_list_ascii.
  induction 1 as [|r rest Hr _ IH]; [done|].
  simpl. rewrite length_app, IH, filter_cons.
  pose proof (proj1 (Forall_forall _ _) stringBase_utf8 r Hr) as Hlen.
  simpl in Hlen. rewrite Hlen. destruct (decide (r = sectionSign)); simpl; lia.
Qed.

(** [Length] counts runes, not bytes: the random part of every payload is
    [Length] bytes long plus one byte for each section sign drawn, so
    between [Length] and twice [Length] bytes. *)
Theorem randString_bytes (source : nat → Z) (cons : Profiler.Profiler) :
  0 ≤ Profiler.length cons →
  ∃ randString,
    Profiler.makeRandString source cons = Ok randString ∧
    Z.of_nat (String.length (Profiler.string_of_runes randString)) =
      Profiler.length cons + Z.of_nat (List.length (filter (λ r, r = sectionSign) randString)) ∧
    Profiler.length cons ≤ Z.of_nat (String.length (Profiler.string_of_runes randString))
      ≤ 2 * Profiler.length cons.
Proof.
  intros Hlen.
  destruct (fillRandString_total source (seq 0 (Z.to_nat (Profiler.length cons))))
    as (rs & Hfill & Hrs & Hbase).
  exists rs. split.
  { unfold Profiler.makeRandString. by rewrite (proj2 (Z.ltb_ge _ _) Hlen). }
  rewrite (string_of_runes_length rs Hbase).
  rewrite length_seq in Hrs.
  pose proof (length_filter (λ r, r = sectionSign) rs). lia.
Qed.

Lemma randString_bytes_witness :
  ∃ randString,
    Profiler.makeRandString (λ _, 72) (Profiler.mkProfiler 1 1 3) = Ok randString ∧
    Z.of_nat (String.length (Profiler.string_of_runes randString)) =
      Profiler.length (Profiler.mkProfiler 1 1 3) +
      Z.of_nat (List.length (filter (λ r, r = sectionSign) randString)) ∧
    Profiler.length (Profiler.mkProfiler 1 1 3)
      ≤ Z.of_nat (String.length (Profiler.string_of_runes randString))
      ≤ 2 * Profiler.length (Profiler.mkProfiler 1 1 3).
Proof.
  apply (randString_bytes (λ _, 72) (Profiler.mkProfiler 1 1 3)). simpl. lia.
Defined.

Example randString_of_section_signs :
  Profiler.posted (trace_of (Profiler.profile (λ _, 72) (Profiler.mkProfiler 1 1 3))) =
  ["0/1 §§§"] ∧
  String.length "0/1 §§§" = 10%nat.
Proof. vm_compute. split; reflexivity. Qed.

Lemma list_ascii_of_string_app (a b : string) :
  list_ascii_of_string (a +:+ b) = list_ascii_of_string a ++ list_ascii_of_string b.
Proof. induction a as [|c a IH]; [done|]. simpl. by rewrite IH. Qed.

Lemma string_app_inv_tail (a b tail : string) :
  a +:+ tail = b +:+ tail → a = b.
Proof.
  intros Heq. apply (f_equal list_ascii_of_string) in Heq.
  rewrite !list_ascii_of_string_app in Heq. apply app_inv_tail in Heq.
  rewrite <- (string_of_list_ascii_of_string a), <- (string_of_list_ascii_of_string b).
  by rewrite Heq.
Qed.

(** Within a batch no two payloads are equal: they differ in the number
    they start with.  Every batch posts the same payloads again. *)
Theorem batch_payloads_distinct (runs : Z) (randString : list Z) :
  NoDup (Profiler.batch_payloads runs randString) ∧
  ∀ batches, Profiler.run_payloads batches runs randString =
             mjoin (replicate (Z.to_nat batches) (Profiler.batch_payloads runs randString)).
Proof.
  split.
  - unfold Profiler.batch_payloads. apply NoDup_fmap_2; [|apply NoDup_seqZ].
    intros i j Heq. unfold Profiler.message in Heq.
    apply string_app_inv_tail in Heq. by apply (inj pretty).
  - intros batches. unfold Profiler.run_payloads, seqZ. rewrite <- list_fmap_compose.
    f_equal. generalize 0%nat.
    induction (Z.to_nat batches) as [|n IH]; intros k; [done|].
    simpl. f_equal. apply IH.
Qed.

(** ** Config.SetYAML: no declaration is lost or read twice *)

Lemma readClasses_counts entries : ∀ m conf',
  readClasses entries (mkConfig (Some m)) = Ok conf' →
  ∃ m', conf' = mkConfig (Some m') ∧
        ∀ class, List.length (plugins_of m' class) =
                 (List.length (plugins_of m class) +
                  List.length (filter (λ c, c = class) (omap entry_class entries)))%nat.
Proof.
  induction entries as [|[k v] rest IH]; intros m conf' Hrun.
  - injection Hrun as <-. exists m. split; [done|]. intros class. simpl. lia.
  - simpl in Hrun.
    apply result_bind_Ok in Hrun as (settings & _ & Hrun).
    apply result_bind_Ok in Hrun as (plugin & _ & Hrun).
    apply result_bind_Ok in Hrun as (c & Hc & Hrun).
    unfold addPlugin in Hrun. simpl in Hrun.
    destruct (IH _ _ Hrun) as (m' & -> & Hcount).
    exists m'. split; [done|]. intros class. rewrite Hcount, plugins_of_insert.
    destruct k; try discriminate. injection Hc as ->.
    change (omap entry_class ((VString c, v) :: rest)) with (c :: omap entry_class rest).
    rewrite filter_cons.
    destruct (decide (c = class)) as [->|Hne]; [rewrite length_app|]; cbn [List.length]; lia.
Qed.

Lemma readPlugins_counts pluginList : ∀ m conf',
  readPlugins pluginList (mkConfig (Some m)) = Ok conf' →
  ∃ m', conf' = mkConfig (Some m') ∧
        ∀ class, List.length (plugins_of m' class) =
                 (List.length (plugins_of m class) +
                  List.length (filter (λ c, c = class) (declared_classes pluginList)))%nat.
Proof.
  induction pluginList as [|d rest IH]; intros m conf' Hrun.
  - injection Hrun as <-. exists m. split; [done|]. intros class. simpl. lia.
  - simpl in Hrun.
    apply result_bind_Ok in Hrun as (entries & Hmap & Hrun).
    apply result_bind_Ok in Hrun as (conf1 & Hcls & Hrun).
    destruct d; try discriminate. injection Hmap as ->.
    destruct (readClasses_counts _ _ _ Hcls) as (m1 & -> & Hcount1).
    destruct (IH _ _ Hrun) as (m' & -> & Hcount).
    exists m'. split; [done|]. intros class. rewrite Hcount, Hcount1.
    simpl. rewrite filter_app, length_app. lia.
Qed.

(** For every class, the list of its plugins grows by exactly the number
    of entries declared under that class, in all the declarations together:
    no entry is lost and none is read twice. *)
Theorem SetYAML_counts
    (conf' : Config) (tag : string) (pluginList : list value) (b : bool)
    (m : gmap string (list PluginConfig)) :
  SetYAML (mkConfig (Some m)) tag (VList pluginList) = Ok (conf', b) →
  ∃ m', Config_Settings conf' = Some m' ∧
        ∀ class, List.length (plugins_of m' class) =
                 (List.length (plugins_of m class) +
                  List.length (filter (λ c, c = class) (declared_classes pluginList)))%nat.
Proof.
  unfold SetYAML. simpl. intros Hrun.
  apply result_bind_Ok in Hrun as (conf1 & Hrun & Hret). injection Hret as -> _.
  destruct (readPlugins_counts _ _ _ Hrun) as (m' & -> & Hcount).
  by exists m'.
Qed.

Lemma SetYAML_counts_witness :
  ∃ m', Config_Settings
          (mkConfig (Some {[ "a" := [mkPluginConfig false ∅; mkPluginConfig false ∅];
                             "b" := [mkPluginConfig false ∅] ]}))
        = Some m' ∧
        ∀ class, List.length (plugins_of m' class) =
                 (List.length (plugins_of ∅ class) +
                  List.length (filter (λ c, c = class)
                                 (declared_classes
                                    [VMap [(VString "a", VMap []); (VString "b", VMap [])];
                                     VMap [(VString "a", VMap [])]])))%nat.
Proof.
  apply (SetYAML_counts _ "config"
           [VMap [(VString "a", VMap []); (VString "b", VMap [])];
            VMap [(VString "a", VMap [])]] true ∅).
  vm_compute. reflexivity.
Defined.

(** ** Syslogd.Configure: configuring twice *)

(** Configuring a consumer again with the same options gives what the first
    call gave, the counter back at 0 included: what the call leaves in the
    consumer's fields does not depend on what they held. *)
Theorem Configure_idempotent
    (ConsumerBase_Configure : PluginConfig → option string)
    (ParseAddress : string → string * string)
    (cons cons' : Syslogd) (conf : PluginConfig) (err : option string) :
  result_of (Configure ConsumerBase_Configure ParseAddress cons conf) = Ok (cons', err) →
  result_of (Configure ConsumerBase_Configure ParseAddress cons' conf) = Ok (cons', err).
Proof.
  intros Hres.
  destruct (ConsumerBase_Configure conf) as [e|] eqn:Hbase.
  { rewrite (Configure_base_error _ _ cons _ _ Hbase) in Hres.
    rewrite (Configure_base_error _ _ cons' _ _ Hbase).
    simpl in Hres |- *. by injection Hres as <- <-. }
  destruct (Configure_returns_typed _ _ _ _ _ Hbase Hres) as [Ha Hf].
  rewrite (Configure_typed _ _ cons _ Hbase Ha Hf) in Hres.
  rewrite (Configure_typed _ _ cons' _ Hbase Ha Hf). cbv zeta in Hres |- *.
  rewrite !result_bind_emit in Hres |- *.
  destruct cons as [fb fa f p a s]. simpl in Hres.
  destruct (known_protocol (ParseAddress (configured_address conf)).2) eqn:Hknown.
  - unfold selectFormat in Hres. simpl in Hres.
    repeat (case_decide; simpl in Hres); injection Hres as <- <-; simpl;
      rewrite Hknown; unfold selectFormat; simpl;
      repeat (case_decide; simpl); first [reflexivity | congruence].
  - simpl in Hres. injection Hres as <- <-. simpl. by rewrite Hknown.
Qed.

Lemma Configure_idempotent_witness :
  result_of (Configure (λ _, None) exampleParseAddress
               (mkSyslogd (mret tt) (mret tt) RFC5424 "udp" "0.0.0.0:5880" (Some 0))
               (mkPluginConfig true {[ "Address" := VString "tcp://0.0.0.0:5880";
                                       "Format" := VString "RFC5424" ]}))
  = Ok (mkSyslogd (mret tt) (mret tt) RFC5424 "udp" "0.0.0.0:5880" (Some 0), None).
Proof.
  apply (Configure_idempotent (λ _, None) exampleParseAddress Syslogd_zero).
  vm_compute. reflexivity.
Defined.
